(** * nzbparser: subject-line parsing, scanning and de-duplication

    A shallow embedding of [subject.go] and of the [ScanNzbFile] and
    [MakeUnique] functions of [nzbparser.go].

    Go strings are byte sequences; they are modelled as [string] (one
    [ascii] per byte).  Go's [int] is taken at its 64-bit width and is
    modelled as [Z]. *)

From Stdlib Require Import ZArith Lia Bool Ascii.
From stdpp Require Import base list strings gmap.

Local Open Scope Z_scope.

(** ** Bytes and strings *)

Module Bytes.

Definition code (a : ascii) : N := N_of_ascii a.

Definition between (lo hi : N) (a : ascii) : bool :=
  ((lo <=? code a) && (code a <=? hi))%N.

Definition isByte (c : ascii) (a : ascii) : bool := Ascii.eqb c a.

Definition isDigit : ascii -> bool := between 48 57.
Definition isUpper : ascii -> bool := between 65 90.
Definition isLower : ascii -> bool := between 97 122.
(** [c < utf8.RuneSelf] *)
Definition isASCII (a : ascii) : bool := (code a <? 128)%N.
(** continuation bytes [10xxxxxx] of a UTF-8 sequence *)
Definition isCont : ascii -> bool := between 128 191.

Definition lower (a : ascii) : ascii :=
  if isUpper a then ascii_of_N (code a + 32) else a.

(** every byte value, for deciding properties of byte predicates *)
Definition all : list ascii := map ascii_of_nat (seq 0 256).

End Bytes.

Module Str.

Fixpoint all (p : ascii -> bool) (s : string) : bool :=
  match s with
  | EmptyString => true
  | String a s' => p a && all p s'
  end.

Fixpoint rev_onto (s acc : string) : string :=
  match s with
  | EmptyString => acc
  | String a s' => rev_onto s' (String a acc)
  end.

Definition rev (s : string) : string := rev_onto s EmptyString.

Fixpoint take (n : nat) (s : string) : string :=
  match n, s with
  | S n', String a s' => String a (take n' s')
  | _, _ => EmptyString
  end.

Fixpoint drop (n : nat) (s : string) : string :=
  match n, s with
  | S n', String _ s' => drop n' s'
  | _, _ => s
  end.

Fixpoint hasPrefix (p s : string) : bool :=
  match p, s with
  | EmptyString, _ => true
  | String a p', String b s' => Ascii.eqb a b && hasPrefix p' s'
  | String _ _, EmptyString => false
  end.

(** [strings.Contains] *)
Fixpoint contains (sub s : string) : bool :=
  hasPrefix sub s ||
  match s with
  | EmptyString => false
  | String _ s' => contains sub s'
  end.

Definition isEmpty (s : string) : bool :=
  match s with EmptyString => true | _ => false end.

(** what is consumed between a string and one of its suffixes *)
Definition consumed (s rest : string) : string :=
  take (String.length s - String.length rest) s.

End Str.


(** ** Regular expressions

    Go's [regexp] package returns the leftmost match and, among the
    matches starting there, the one a backtracking search finds first.
    [exec] is that backtracking search, written with a continuation; the
    patterns are matched byte-wise. *)

Module Regexp.

Inductive regex : Type :=
| Empty
| Class (p : ascii -> bool)
| Cat (r1 r2 : regex)
| Or (r1 r2 : regex)
| Rep (greedy : bool) (r : regex)
| Cap (n : nat) (r : regex)
| BeginText
| EndText.

(** the groups closed so far, the most recent first *)
Definition captures : Type := list (nat * string).

Fixpoint capture (c : captures) (n : nat) : string :=
  match c with
  | [] => EmptyString
  | (m, w) :: c' => if (m =? n)%nat then w else capture c' n
  end.

Section Exec.

Context {R : Type}.

Definition cont : Type := nat -> string -> captures -> option R.

(** [r*] and [r*?]: an iteration has to consume input to be repeated. *)
Fixpoint iterate (body : nat -> string -> captures -> cont -> option R)
    (greedy : bool) (k : cont) (fuel pos : nat) (s : string) (c : captures)
    {struct fuel} : option R :=
  match fuel with
  | O => k pos s c
  | S fuel' =>
      let again : cont := fun pos' s' c' =>
        if (pos <? pos')%nat then iterate body greedy k fuel' pos' s' c'
        else None in
      if greedy then
        match body pos s c again with
        | Some m => Some m
        | None => k pos s c
        end
      else
        match k pos s c with
        | Some m => Some m
        | None => body pos s c again
        end
  end.

Fixpoint exec (r : regex) (pos : nat) (s : string) (c : captures) (k : cont)
    {struct r} : option R :=
  match r with
  | Empty => k pos s c
  | Class p =>
      match s with
      | String a s' => if p a then k (S pos) s' c else None
      | EmptyString => None
      end
  | Cat r1 r2 => exec r1 pos s c (fun pos1 s1 c1 => exec r2 pos1 s1 c1 k)
  | Or r1 r2 =>
      match exec r1 pos s c k with
      | Some m => Some m
      | None => exec r2 pos s c k
      end
  | Rep greedy r1 => iterate (exec r1) greedy k (String.length s) pos s c
  | Cap n r1 =>
      exec r1 pos s c
        (fun pos' s' c' => k pos' s' ((n, Str.consumed s s') :: c'))
  | BeginText => if (pos =? 0)%nat then k pos s c else None
  | EndText => if Str.isEmpty s then k pos s c else None
  end.

End Exec.

(** A match: where it begins, where it ends and the groups it closed. *)
Record found : Type := Found { mBegin : nat; mEnd : nat; mCaps : captures }.

(** The leftmost match at or after [pos]; [s] is the text from [pos] on. *)
Fixpoint search (r : regex) (pos : nat) (s : string) : option found :=
  match exec r pos s [] (fun e _ c => Some (Found pos e c)) with
  | Some m => Some m
  | None =>
      match s with
      | EmptyString => None
      | String _ s' => search r (S pos) s'
      end
  end.

(** Width of the UTF-8 sequence at the head of [s], as
    [utf8.DecodeRuneInString] reports it: 1 for an invalid byte, 0 at the
    end of the text. *)
Definition runeWidth (s : string) : nat :=
  match s with
  | EmptyString => 0
  | String b0 rest =>
      let n0 := Bytes.code b0 in
      let tail2 lo hi w :=
        match rest with
        | String b1 rest1 =>
            if Bytes.between lo hi b1 then
              match w, rest1 with
              | 2%nat, _ => 2
              | 3%nat, String b2 _ => if Bytes.isCont b2 then 3 else 1
              | 4%nat, String b2 (String b3 _) =>
                  if Bytes.isCont b2 && Bytes.isCont b3 then 4 else 1
              | _, _ => 1
              end
            else 1
        | EmptyString => 1
        end%nat in
      if (n0 <? 128)%N then 1
      else if Bytes.between 194 223 b0 then tail2 128%N 191%N 2%nat
      else if (n0 =? 224)%N then tail2 160%N 191%N 3%nat
      else if (n0 =? 237)%N then tail2 128%N 159%N 3%nat
      else if Bytes.between 225 239 b0 then tail2 128%N 191%N 3%nat
      else if (n0 =? 240)%N then tail2 144%N 191%N 4%nat
      else if Bytes.between 241 243 b0 then tail2 128%N 191%N 4%nat
      else if (n0 =? 244)%N then tail2 128%N 143%N 4%nat
      else 1
  end%nat.

(** [Regexp.allMatches]: successive matches; an empty match that touches
    the previous match is dropped, and the search then moves on by one
    rune. *)
Fixpoint allMatches (fuel : nat) (r : regex) (text : string) (pos : nat)
    (prevMatchEnd : option nat) : list found :=
  match fuel with
  | O => []
  | S fuel' =>
      if (String.length text <? pos)%nat then []
      else
        match search r pos (Str.drop pos text) with
        | None => []
        | Some m =>
            let empty := (mEnd m =? pos)%nat in
            let accept :=
              negb (empty && bool_decide (prevMatchEnd = Some (mBegin m))) in
            let width := runeWidth (Str.drop pos text) in
            let pos' :=
              if empty then
                if (0 <? width)%nat then (pos + width)%nat
                else S (String.length text)
              else mEnd m in
            let rest := allMatches fuel' r text pos' (Some (mEnd m)) in
            if accept then m :: rest else rest
        end
  end.

(** A compiled pattern: its program and the names of its groups
    ([SubexpNames]; group 0 is the whole match and has no name). *)
Record Regexp : Type := { prog : regex; SubexpNames : list string }.

(** The strings of a match, one per group; a group that took no part in
    the match yields the empty string. *)
Definition submatches (re : Regexp) (text : string) (m : found) : list string :=
  Str.take (mEnd m - mBegin m) (Str.drop (mBegin m) text)
  :: map (capture (mCaps m)) (seq 1 (length (SubexpNames re) - 1)).

Definition FindStringSubmatch (re : Regexp) (text : string) : option (list string) :=
  submatches re text <$> search (prog re) 0 text.

(** [FindAllStringSubmatch re text (-1)]; [None] is Go's nil. *)
Definition FindAllStringSubmatch (re : Regexp) (text : string) : option (list (list string)) :=
  match allMatches (String.length text + 2) (prog re) text 0 None with
  | [] => None
  | ms => Some (map (submatches re text) ms)
  end.

Definition MatchString (re : Regexp) (text : string) : bool :=
  bool_decide (is_Some (search (prog re) 0 text)).

(** *** Pattern syntax *)

Definition dquote : ascii := "034"%char.

Definition chr (c : ascii) : regex := Class (Bytes.isByte c).
(** [[abc]] and [[^abc]] *)
Definition oneOf (set : string) : regex :=
  Class (fun a => Str.contains (String a EmptyString) set).
Definition noneOf (set : string) : regex :=
  Class (fun a => negb (Str.contains (String a EmptyString) set)).
(** [.] does not match a line feed. *)
Definition any : regex := Class (fun a => negb (Bytes.isByte "010" a)).
Definition digit : regex := Class Bytes.isDigit.

Definition cat (rs : list regex) : regex := foldr Cat Empty rs.

Fixpoint alt (rs : list regex) : regex :=
  match rs with
  | [] => Class (fun _ => false)
  | [r] => r
  | r :: rs' => Or r (alt rs')
  end.

Definition star (r : regex) : regex := Rep true r.
Definition lazyStar (r : regex) : regex := Rep false r.
Definition plus (r : regex) : regex := Cat r (Rep true r).
Definition lazyPlus (r : regex) : regex := Cat r (Rep false r).
Definition opt (r : regex) : regex := Or r Empty.

Fixpoint lit (s : string) : regex :=
  match s with
  | EmptyString => Empty
  | String a s' => Cat (chr a) (lit s')
  end.

(** One letter under the [i] flag.  Go folds by Unicode simple folding:
    [s] also matches U+017F and [k] also matches U+212A. *)
Definition fold1 (c : ascii) : regex :=
  let one := Class (fun a => Ascii.eqb (Bytes.lower a) (Bytes.lower c)) in
  if Ascii.eqb (Bytes.lower c) "s" then
    Or one (lit (String "197" (String "191" EmptyString)))
  else if Ascii.eqb (Bytes.lower c) "k" then
    Or one (lit (String "226" (String "132" (String "170" EmptyString))))
  else one.

Fixpoint ilit (s : string) : regex :=
  match s with
  | EmptyString => Empty
  | String a s' => Cat (fold1 a) (ilit s')
  end.

End Regexp.


(** ** The patterns of [subject.go] *)

Module Patterns.
Import Regexp.

Definition quote : regex := chr dquote.
Definition spaces : regex := star (chr " ").
Definition digits : regex := plus digit.

(** [[<[]] and [[>\]]] *)
Definition openBracket : regex := oneOf "<[".
Definition closeBracket : regex := oneOf ">]".
(** [[^ \x22\.]] *)
Definition namePart : regex :=
  noneOf (String " " (String dquote (String "." EmptyString))).

(** [vol\d+\+\d+\.par2?|part\d+\.[^ \x22\.]*|[^ \x22\.]*\.\d+|[^ \x22\.]*];
    the last branch is [[^ \x22\.]*?] in [fileWithExtRE]. *)
Definition extension (lastGreedy : bool) : regex :=
  alt [ cat [ilit "vol"; digits; chr "+"; digits; chr "."; ilit "par"; opt (chr "2")];
        cat [ilit "part"; digits; chr "."; star namePart];
        cat [star namePart; chr "."; digits];
        Rep lastGreedy namePart ].

(** the pattern for [[X/Y]] and [(X/Y)] number pairs *)
Definition numbersRE : Regexp :=
  {| prog :=
       alt [ cat [ Cap 1 (lazyStar any); spaces;
                   alt [ Cap 2 (cat [ alt [ cat [opt quote; chr "["];
                                            cat [opt openBracket; spaces] ];
                                      Cap 3 digits; spaces; chr "/"; spaces;
                                      Cap 4 digits; spaces;
                                      opt (alt [ cat [chr "]"; opt quote];
                                                 closeBracket ]) ]);
                         Cap 5 (cat [ opt quote; chr "(";
                                      Cap 6 digits; spaces; chr "/"; spaces;
                                      Cap 7 digits; chr ")"; opt quote ]) ] ];
             cat [star any; EndText] ];
     SubexpNames := [ ""; "remainder"; "files"; "file"; "totalfiles";
                      "segments"; "segment"; "totalsegments" ] |}.

(** the pattern for [X of Y] *)
Definition ofRE : Regexp :=
  {| prog :=
       cat [ Cap 1 (lazyStar any); spaces;
             Cap 2 (cat [ alt [ chr "[";
                                cat [ opt openBracket; spaces;
                                      opt (alt [ilit "file"; ilit "datei"]) ] ];
                          spaces; Cap 3 digits; spaces;
                          alt [ilit "of"; ilit "von"]; spaces;
                          Cap 4 digits; spaces;
                          opt (alt [chr "]"; closeBracket]) ]);
             Cap 5 (cat [star any; EndText]) ];
     SubexpNames := [ ""; "remainder1"; "files"; "file"; "totalfiles";
                      "remainder2" ] |}.

(** a file name between quotes, from the first of its groups on *)
Definition quotedName (first : nat) : regex :=
  cat [ plus quote;
        Cap first
          (cat [ Cap (first + 1) (lazyStar any);
                 opt (cat [ chr ".";
                            Cap (first + 2)
                              (cat [opt (ilit "7z."); extension true]) ]) ]);
        plus quote ].

(** header and file name between quotes *)
Definition quotedRE : Regexp :=
  {| prog :=
       cat [ BeginText; opt (Cap 1 (lazyStar any)); star (oneOf "- ");
             quotedName 2 ];
     SubexpNames := [""; "header"; "filename"; "basefilename"; "extension"] |}.

(** a file name with an extension and no quotes *)
Definition plainRE : Regexp :=
  {| prog :=
       cat [ BeginText;
             Cap 1 (cat [ Cap 2 (lazyStar any); chr "."; Cap 3 (extension true);
                          alt [ oneOf (String dquote " "); EndText ] ]) ];
     SubexpNames := [""; "filename"; "basefilename"; "extension"] |}.

Definition quoteRE : Regexp :=
  {| prog := cat [quote; Cap 1 (plus (noneOf (String dquote EmptyString))); quote];
     SubexpNames := [""; ""] |}.

Definition fileWithExtRE : Regexp :=
  {| prog :=
       cat [ BeginText; Cap 1 (lazyStar any); chr "."; opt (ilit "7z.");
             extension false; EndText ];
     SubexpNames := [""; "basefilename"] |}.

(** [(?i)r\d{2}$] *)
Definition dynamicArchiveRE : Regexp :=
  {| prog := cat [ilit "r"; digit; digit; EndText];
     SubexpNames := [""] |}.

Definition candidateRE : Regexp :=
  {| prog :=
       cat [ BeginText; Cap 1 (lazyPlus any); chr ".";
             Cap 2 (alt [ cat [ilit "vol"; digits; chr "+"; digits; ilit ".par2"];
                          ilit "par2";
                          cat [ilit "part"; digits; ilit ".rar"];
                          cat [ilit "r"; digit; digit];
                          ilit "rar"; ilit "nfo"; ilit "sfv"; ilit "zip";
                          ilit "7z"; ilit "mp4"; ilit "mkv"; ilit "avi";
                          ilit "mov"; ilit "mp3"; ilit "flac"; ilit "m4a";
                          ilit "jpg"; ilit "jpeg"; ilit "png"; ilit "gif";
                          ilit "pdf"; ilit "txt" ]);
             EndText ];
     SubexpNames := [""; "base"; "ext"] |}.

(** leading number pairs, then the tail; this pattern has no [i] flag *)
Definition leadBrackets : Regexp :=
  {| prog :=
       cat [ BeginText;
             plus (cat [ spaces;
                         alt [cat [opt quote; chr "["]; opt openBracket];
                         digits; spaces; chr "/"; spaces; digits; spaces;
                         opt (alt [cat [chr "]"; opt quote]; closeBracket]) ]);
             spaces; Cap 1 (star any); EndText ];
     SubexpNames := [""; "tail"] |}.

Definition q : Regexp :=
  {| prog := quotedName 1;
     SubexpNames := [""; "filename"; "basefilename"; "extension"] |}.

End Patterns.


(** ** The functions of Go's [strings] and [strconv] that the parser calls *)

(** What Go reads from its Unicode case tables.  Both functions are only
    reached for strings with a byte outside ASCII; ASCII strings are
    handled by the code below. *)
Class Unicode : Type :=
  { (** [strings.Map(unicode.ToLower, s)] *)
    toLowerRunes : string -> string;
    (** the rune-by-rune comparison of [strings.EqualFold], through
        [unicode.SimpleFold] *)
    equalFoldRunes : string -> string -> bool }.

Module GoStrings.

(** [asciiSpace]: tab, line feed, vertical tab, form feed, carriage
    return, space *)
Definition asciiSpace (a : ascii) : bool :=
  Bytes.between 9 13 a || Bytes.isByte " " a.

(** The runes of [unicode.IsSpace] above U+007F, in UTF-8:
    U+0085 and U+00A0 take two bytes, *)
Definition space2 (a b : ascii) : bool :=
  Bytes.isByte "194" a && (Bytes.isByte "133" b || Bytes.isByte "160" b).

(** and U+1680, U+2000 to U+200A, U+2028, U+2029, U+202F, U+205F and
    U+3000 take three. *)
Definition space3 (a b c : ascii) : bool :=
  (Bytes.isByte "225" a && Bytes.isByte "154" b && Bytes.isByte "128" c)
  || (Bytes.isByte "226" a && Bytes.isByte "128" b
      && (Bytes.between 128 138 c || Bytes.isByte "168" c
          || Bytes.isByte "169" c || Bytes.isByte "175" c))
  || (Bytes.isByte "226" a && Bytes.isByte "129" b && Bytes.isByte "159" c)
  || (Bytes.isByte "227" a && Bytes.isByte "128" b && Bytes.isByte "128" c).

(** Drops the white-space runes at the head of [s].  With [backwards] the
    string is read from its end, so the bytes of a rune arrive last byte
    first. *)
Fixpoint dropSpace (backwards : bool) (s : string) : string :=
  match s with
  | EmptyString => EmptyString
  | String a s1 =>
      if asciiSpace a then dropSpace backwards s1
      else
        match s1 with
        | EmptyString => s
        | String b s2 =>
            if (if backwards then space2 b a else space2 a b)
            then dropSpace backwards s2
            else
              match s2 with
              | EmptyString => s
              | String c s3 =>
                  if (if backwards then space3 c b a else space3 a b c)
                  then dropSpace backwards s3
                  else s
              end
        end
  end.

Definition TrimSpace (s : string) : string :=
  Str.rev (dropSpace true (Str.rev (dropSpace false s))).

Fixpoint dropCutset (cutset s : string) : string :=
  match s with
  | EmptyString => EmptyString
  | String a s' =>
      if Str.contains (String a EmptyString) cutset then dropCutset cutset s'
      else s
  end.

(** [strings.Trim] for a cutset of ASCII bytes *)
Definition Trim (s cutset : string) : string :=
  dropCutset cutset (Str.rev (dropCutset cutset (Str.rev s))).

Fixpoint lastIndexFrom (sep s : string) (i found : Z) : Z :=
  let found' := if Str.hasPrefix sep s then i else found in
  match s with
  | EmptyString => found'
  | String _ s' => lastIndexFrom sep s' (i + 1) found'
  end.

(** [strings.LastIndex]: [-1] when [sep] does not occur *)
Definition LastIndex (s sep : string) : Z := lastIndexFrom sep s 0 (-1).

Fixpoint mapBytes (f : ascii -> ascii) (s : string) : string :=
  match s with
  | EmptyString => EmptyString
  | String a s' => String (f a) (mapBytes f s')
  end.

Definition ToLower `{Unicode} (s : string) : string :=
  if Str.all Bytes.isASCII s then mapBytes Bytes.lower s
  else toLowerRunes s.

(** [strings.EqualFold]: bytes are compared as long as both are ASCII *)
Fixpoint EqualFold `{Unicode} (s t : string) : bool :=
  match s, t with
  | EmptyString, EmptyString => true
  | String sr s', String tr t' =>
      if negb (Bytes.isASCII sr && Bytes.isASCII tr) then equalFoldRunes s t
      else if Ascii.eqb (Bytes.lower sr) (Bytes.lower tr) then EqualFold s' t'
      else false
  | _, _ => false
  end.

End GoStrings.

Module strconv.

Inductive NumError : Type := ErrSyntax | ErrRange.

Definition maxUint64 : Z := 2 ^ 64 - 1.
Definition maxInt64 : Z := 2 ^ 63 - 1.

(** the loop of [ParseUint] for base 10 and 64 bits *)
Fixpoint parseDigits (s : string) (n : Z) : Z * option NumError :=
  match s with
  | EmptyString => (n, None)
  | String c s' =>
      if Bytes.isDigit c then
        if n >=? maxUint64 / 10 + 1 then (maxUint64, Some ErrRange)
        else
          let n1 := n * 10 + (Z.of_N (Bytes.code c) - 48) in
          if n1 >? maxUint64 then (maxUint64, Some ErrRange)
          else parseDigits s' n1
      else (0, Some ErrSyntax)
  end.

Definition ParseUint (s : string) : Z * option NumError :=
  match s with
  | EmptyString => (0, Some ErrSyntax)
  | _ => parseDigits s 0
  end.

Definition ParseInt (s : string) : Z * option NumError :=
  match s with
  | EmptyString => (0, Some ErrSyntax)
  | String c s' =>
      let neg := Bytes.isByte "-" c in
      let body := if Bytes.isByte "+" c || neg then s' else s in
      match ParseUint body with
      | (_, Some ErrSyntax) => (0, Some ErrSyntax)
      | (un, _) =>
          if negb neg && (un >=? maxInt64 + 1) then (maxInt64, Some ErrRange)
          else if neg && (un >? maxInt64 + 1) then (- (maxInt64 + 1), Some ErrRange)
          else (if neg then - un else un, None)
      end
  end.

(** [strconv.Atoi]; its fast path for short strings computes the same
    values as [ParseInt]. *)
Definition Atoi (s : string) : Z * option NumError := ParseInt s.

End strconv.


(** ** [subject.go] *)

Module Subject.

Record t : Type := mk
  { Subject : string;       (* full subject *)
    Header : string;        (* remaining text before the filename *)
    Filename : string;      (* filename with extension *)
    Basefilename : string;  (* filename without extension(s) *)
    File : Z;               (* X in [X/Y] *)
    TotalFiles : Z;         (* Y in [X/Y] *)
    Segment : Z;            (* X in (X/Y) *)
    TotalSegments : Z       (* Y in (X/Y) *) }.

Definition setHeader (v : string) (s : t) : t :=
  mk (Subject s) v (Filename s) (Basefilename s)
     (File s) (TotalFiles s) (Segment s) (TotalSegments s).
Definition setFilename (v : string) (s : t) : t :=
  mk (Subject s) (Header s) v (Basefilename s)
     (File s) (TotalFiles s) (Segment s) (TotalSegments s).
Definition setBasefilename (v : string) (s : t) : t :=
  mk (Subject s) (Header s) (Filename s) v
     (File s) (TotalFiles s) (Segment s) (TotalSegments s).
(** [File] and [TotalFiles] are always assigned together, and so are
    [Segment] and [TotalSegments]. *)
Definition setFiles (file total : Z) (s : t) : t :=
  mk (Subject s) (Header s) (Filename s) (Basefilename s)
     file total (Segment s) (TotalSegments s).
Definition setSegments (segment total : Z) (s : t) : t :=
  mk (Subject s) (Header s) (Filename s) (Basefilename s)
     (File s) (TotalFiles s) segment total.

End Subject.

Import Regexp Patterns GoStrings.
Import Subject (Subject, Header, Filename, Basefilename,
                File, TotalFiles, Segment, TotalSegments,
                setHeader, setFilename, setBasefilename, setFiles, setSegments).

(** The groups of one match, by name.  Reading a name that is not there
    gives the empty string, as a Go map does. *)
Abbreviation groups := (gmap string string).

Definition get (m : groups) (name : string) : string := default "" (m !! name).

(** [l[i]] for a slice of strings *)
Definition item (l : list string) (i : nat) : string := default "" (l !! i).

Definition namedGroups (names match_ : list string) : groups :=
  foldl (fun m nv => if Str.isEmpty nv.1 then m else <[nv.1 := nv.2]> m)
        ∅ (zip names match_).

(** helper function for easier handling of named sub matches *)
Definition findAllNamedMatches (regex : Regexp) (str : string) : option (list groups) :=
  map (namedGroups (SubexpNames regex)) <$> FindAllStringSubmatch regex str.

(** [matches[0]] *)
Definition first (matches : list groups) : groups := default ∅ (head matches).

Fixpoint indexOf (name : string) (names : list string) : option nat :=
  match names with
  | [] => None
  | n :: names' => if String.eqb n name then Some 0%nat else S <$> indexOf name names'
  end.

Definition nonEmpty (s : string) : bool := negb (Str.isEmpty s).

(** [x, _ = strconv.Atoi(s)] *)
Definition atoi (s : string) : Z := (strconv.Atoi s).1.

Definition known : gset string :=
  list_to_set
    [ "rar"; "r00"; "r01"; "r02"; "par2"; "nfo"; "sfv"; "zip"; "7z"; "mp4";
      "mkv"; "avi"; "mov"; "mp3"; "flac"; "m4a"; "jpg"; "jpeg"; "png"; "gif";
      "pdf"; "txt"; "r03"; "r04"; "r05" ].

(** One round of the loop over the number pairs, for the match [m]. *)
Definition assignNumbers (m : groups) (st : Subject.t * bool) : Subject.t * bool :=
  let subject := st.1 in
  if (File subject =? 0) && (Segment subject =? 0) then
    (* neither segments nor files are assigned yet *)
    if nonEmpty (get m "files") then
      (setFiles (atoi (get m "file")) (atoi (get m "totalfiles")) subject, true)
    else if nonEmpty (get m "segments") then
      (setSegments (atoi (get m "segment")) (atoi (get m "totalsegments")) subject, true)
    else st
  else if (TotalFiles subject =? 0) || (TotalSegments subject =? 0) then
    (* one of them is already assigned *)
    if nonEmpty (get m "files") then
      let subject :=
        if negb (TotalFiles subject =? 0)
        then setSegments (File subject) (TotalFiles subject) subject
        else subject in
      let subject :=
        if TotalSegments subject =? 0
        then setSegments (atoi (get m "file")) (atoi (get m "totalfiles")) subject
        else setFiles (atoi (get m "file")) (atoi (get m "totalfiles")) subject in
      (subject, true)
    else if nonEmpty (get m "segments") then
      let subject :=
        if negb (TotalSegments subject =? 0)
        then setFiles (atoi (get m "segment")) (atoi (get m "totalsegments")) subject
        else setSegments (atoi (get m "segment")) (atoi (get m "totalsegments")) subject in
      (subject, true)
    else st
  else st.

(** The matches are checked from back to start. *)
Fixpoint assignBackwards (matches : list groups) (st : Subject.t * bool) : Subject.t * bool :=
  match matches with
  | [] => st
  | m :: matches' => assignNumbers m (assignBackwards matches' st)
  end.

Definition joinRemainder (remainder : string) (m : groups) : string :=
  TrimSpace (remainder +:+ " " +:+ TrimSpace (get m "remainder")).

(** The search for [[X/Y]] and [(X/Y)]: the subject with the numbers that
    were found, and the remainder of the subject string. *)
Definition parseNumbers (subject : Subject.t) : Subject.t * string :=
  match findAllNamedMatches numbersRE (Subject subject) with
  | Some matches =>
      let st := assignBackwards matches (subject, false) in
      let remainder := foldl joinRemainder "" matches in
      (st.1,
       if negb st.2 && Str.isEmpty (TrimSpace remainder)
       then Subject subject else remainder)
  | None => (subject, Subject subject)
  end.

Definition defaultSegments (subject : Subject.t) : Subject.t :=
  if TotalSegments subject =? 0 then setSegments 1 1 subject else subject.

(** When no file numbers were found: [x of y], or else a single file. *)
Definition parseFilesOf (subject : Subject.t) (remainder : string) : Subject.t * string :=
  if TotalFiles subject =? 0 then
    match findAllNamedMatches ofRE remainder with
    | Some matches =>
        let m := first matches in
        if nonEmpty (get m "files") then
          (setFiles (atoi (get m "file")) (atoi (get m "totalfiles")) subject,
           TrimSpace (TrimSpace (get m "remainder1") +:+ " "
                      +:+ TrimSpace (get m "remainder2")))
        else (setFiles 1 1 subject, remainder)
    | None => (setFiles 1 1 subject, remainder)
    end
  else (subject, remainder).

(** new subject structure *)
Definition newSubject (s : string) : Subject.t :=
  Subject.mk (TrimSpace s) "" "" "" 0 0 0 0.

(** The first part of [ParseSubject]: the file and segment numbers, and
    the remainder of the subject string for the second part. *)
Definition numbering (s : string) : Subject.t * string :=
  let numbers := parseNumbers (newSubject s) in
  parseFilesOf (defaultSegments numbers.1) numbers.2.

Section Names.

Context `{Unicode}.

(** The search for the header and the file name: between quotes, else
    anything with an extension, else everything for a single file post. *)
Definition parseName (subject : Subject.t) (remainder : string) : Subject.t :=
  match findAllNamedMatches quotedRE remainder with
  | Some matches =>
      let m := first matches in
      setBasefilename (Trim (get m "basefilename") " -")
        (setFilename (Trim (get m "filename") " -")
           (setHeader (Trim (get m "header") " -") subject))
  | None =>
      match findAllNamedMatches plainRE remainder with
      | Some matches =>
          let m := first matches in
          setBasefilename (Trim (get m "basefilename") " -")
            (setFilename (Trim (get m "filename") " -") subject)
      | None =>
          if TotalFiles subject =? 1 then
            setBasefilename (Trim remainder " -")
              (setFilename (Trim remainder " -") subject)
          else subject
      end
  end.

(** [quoteRE.FindAllStringSubmatch(remainder, -1)], nil being the empty
    slice *)
Definition quotedStrings (remainder : string) : list (list string) :=
  default [] (FindAllStringSubmatch quoteRE remainder).

(** The loop over the later quoted strings: the first one that has an
    extension becomes the file name. *)
Fixpoint preferWithExt (subject : Subject.t) (quoted0 : list string)
    (later : list (list string)) : Subject.t :=
  match later with
  | [] => subject
  | qi :: later' =>
      let candidate := TrimSpace (item qi 1) in
      match FindStringSubmatch fileWithExtRE candidate with
      | Some m =>
          let subject := setFilename candidate subject in
          let subject :=
            match indexOf "basefilename" (SubexpNames fileWithExtRE) with
            | Some idx =>
                if (idx <? length m)%nat
                then setBasefilename (Trim (item m idx) " -") subject
                else subject
            | None => subject
            end in
          if Str.isEmpty (Header subject)
          then setHeader (Trim (item quoted0 1) " -") subject
          else subject
      | None => preferWithExt subject quoted0 later'
      end
  end.

(** Two quoted strings, a release name and then the file name. *)
Definition dualQuote (subject : Subject.t) (remainder : string) : Subject.t :=
  if nonEmpty (Filename subject)
     && String.eqb (Filename subject) (Basefilename subject) then
    let quoted := quotedStrings remainder in
    if (1 <? length quoted)%nat
    then preferWithExt subject (default [] (head quoted)) (drop 1 quoted)
    else subject
  else subject.

(** The loop over the later quoted strings: the first one with a real
    extension becomes the file name. *)
Fixpoint pickCandidate (subject : Subject.t) (quoted0 : list string)
    (later : list (list string)) : Subject.t :=
  match later with
  | [] => subject
  | qi :: later' =>
      let cand := TrimSpace (item qi 1) in
      match FindStringSubmatch candidateRE cand with
      | Some m =>
          let subject :=
            if Str.isEmpty (Header subject)
               || String.eqb (Header subject) (Basefilename subject)
               || EqualFold (Header subject) (Filename subject)
            then setHeader (Trim (item quoted0 1) " -") subject
            else subject in
          setBasefilename (Trim (item m 1) " -") (setFilename cand subject)
      | None => pickCandidate subject quoted0 later'
      end
  end.

(** Is the extension that was captured a real one?  If not, a later
    quoted string may be the better file name. *)
Definition refineExtension (subject : Subject.t) (remainder : string) : Subject.t :=
  if nonEmpty (Filename subject) then
    let quoted := quotedStrings remainder in
    if (1 <? length quoted)%nat then
      let cur := Filename subject in
      let idx := LastIndex cur "." in
      let curExt :=
        if negb (idx =? -1) then ToLower (Str.drop (Z.to_nat (idx + 1)) cur)
        else "" in
      let curKnown := bool_decide (curExt ∈ known) in
      let isDynamicArchive := MatchString dynamicArchiveRE curExt in
      if negb curKnown && negb isDynamicArchive
      then pickCandidate subject (default [] (head quoted)) (drop 1 quoted)
      else subject
    else subject
  else subject.

(** if header is empty use the basefilename as header *)
Definition backfillHeader (subject : Subject.t) : Subject.t :=
  if Str.isEmpty (Header subject) && nonEmpty (Basefilename subject)
  then setHeader (Basefilename subject) subject
  else subject.

(** Still no file name: a quoted part after leading bracket pairs. *)
Definition leadingFallback (subject : Subject.t) : Subject.t :=
  if Str.isEmpty (Filename subject) then
    match FindStringSubmatch leadBrackets (Subject subject) with
    | Some m =>
        match indexOf "tail" (SubexpNames leadBrackets) with
        | Some idxTail =>
            let tail := TrimSpace (item m idxTail) in
            match FindStringSubmatch q tail with
            | Some qm =>
                let groups := namedGroups (SubexpNames q) qm in
                let subject :=
                  setBasefilename (Trim (get groups "basefilename") " -")
                    (setFilename (Trim (get groups "filename") " -") subject) in
                if Str.isEmpty (Header subject)
                then setHeader (Basefilename subject) subject
                else subject
            | None => subject
            end
        | None => subject
        end
    | None => subject
    end
  else subject.

(** [error] is an interface; [None] is nil. *)
Definition error : Type := string.

(** the Parse method analyses a given string and returns the Subject
    structure *)
Definition ParseSubject (s : string) : Subject.t * option error :=
  let numbered := numbering s in
  let remainder := numbered.2 in
  let subject := parseName numbered.1 remainder in
  let subject := dualQuote subject remainder in
  let subject := refineExtension subject remainder in
  let subject := backfillHeader subject in
  let subject := leadingFallback subject in
  (subject, None).

End Names.


(** ** [nzbparser.go] *)

(** [html.UnescapeString] reads the table of HTML entities. *)
Class Html : Type := { UnescapeString : string -> string }.

(** Go's [int] and [int64] additions wrap around. *)
Definition wrap64 (z : Z) : Z := (z + 2 ^ 63) mod 2 ^ 64 - 2 ^ 63.

(** individual segment structure *)
Module NzbSegment.

Record t : Type := mk { Bytes : Z; Number : Z; ID : string }.

Definition setID (v : string) (s : t) : t := mk (Bytes s) (Number s) v.

End NzbSegment.

(** individual file structure with additional information *)
Module NzbFile.

Record t : Type := mk
  { Groups : list string;
    Segments : list NzbSegment.t;
    Poster : string;
    Date : Z;
    Subject : string;
    Bytes : Z;              (* total size of the file *)
    FileHash : string;
    Number : Z;             (* number of the file *)
    Filename : string;      (* filename of the file *)
    Basefilename : string;
    TotalSegments : Z       (* number of total segments *) }.

Definition setSegments (v : list NzbSegment.t) (f : t) : t :=
  mk (Groups f) v (Poster f) (Date f) (Subject f) (Bytes f) (FileHash f)
     (Number f) (Filename f) (Basefilename f) (TotalSegments f).
Definition setNumber (v : Z) (f : t) : t :=
  mk (Groups f) (Segments f) (Poster f) (Date f) (Subject f) (Bytes f)
     (FileHash f) v (Filename f) (Basefilename f) (TotalSegments f).
Definition setFilename (v : string) (f : t) : t :=
  mk (Groups f) (Segments f) (Poster f) (Date f) (Subject f) (Bytes f)
     (FileHash f) (Number f) v (Basefilename f) (TotalSegments f).
Definition setTotals (totalSegments bytes : Z) (f : t) : t :=
  mk (Groups f) (Segments f) (Poster f) (Date f) (Subject f) bytes
     (FileHash f) (Number f) (Filename f) (Basefilename f) totalSegments.

End NzbFile.

(** nzb file structure with additional information *)
Module Nzb.

Record t : Type := mk
  { Comment : string;
    Meta : gmap string string;
    Files : list NzbFile.t;
    TotalFiles : Z;         (* number of total files *)
    Segments : Z;           (* number of available segments *)
    TotalSegments : Z;      (* number of total segments *)
    Bytes : Z               (* total size of all files *) }.

End Nzb.

(** [ScanNzbFile] and [MakeUnique] update the Nzb they are handed; here
    they return the updated value.  Each file holds a slice of segments of
    its own, as the files that the decoder builds do. *)

Section Scan.

Context `{Unicode} `{Html}.

(** The state of the loop over the segments of one file: the segments
    with their IDs unescaped, and the counters it updates. *)
Record segmentScan : Type := SegmentScan
  { scanned : list NzbSegment.t;
    segTotalBytes : Z;
    totalFileSegments : Z;
    totalFileBytes : Z }.

Definition scanSegment (acc : segmentScan) (segment : NzbSegment.t) : segmentScan :=
  SegmentScan
    (scanned acc ++ [NzbSegment.setID (UnescapeString (NzbSegment.ID segment)) segment])
    (wrap64 (segTotalBytes acc + NzbSegment.Bytes segment))
    (if NzbSegment.Number segment >? totalFileSegments acc
     then NzbSegment.Number segment else totalFileSegments acc)
    (wrap64 (totalFileBytes acc + NzbSegment.Bytes segment)).

(** The state of the loop over the files: the counters, and the files as
    the loop has left them in [nzb.Files] so far. *)
Record fileScan : Type := FileScan
  { segments : Z;        (* total amount of available segments *)
    totalSegments : Z;   (* theoretical total amount of segments *)
    totalBytes : Z;      (* total size of all available segments *)
    totalFiles : Z;      (* theoretical total amount of files *)
    done_ : list NzbFile.t }.

(** the file with what its subject says, when the subject was parsed *)
Definition nameFile (file : NzbFile.t) : NzbFile.t :=
  let parsed := ParseSubject (NzbFile.Subject file) in
  match parsed.2 with
  | None =>
      let subject := parsed.1 in
      NzbFile.setFilename
        (if nonEmpty (Filename subject) then Filename subject else Header subject)
        (NzbFile.setNumber (File subject) file)
  | Some _ => file
  end.

(** One round of the loop over the files. *)
Definition scanFile (acc : fileScan) (file : NzbFile.t) : fileScan :=
  let parsed := ParseSubject (NzbFile.Subject file) in
  let fromSubject :=
    match parsed.2 with
    | None =>
        (TotalSegments parsed.1,
         if TotalFiles parsed.1 >? totalFiles acc
         then TotalFiles parsed.1 else totalFiles acc)
    | Some _ => (0, totalFiles acc)
    end in
  let segs :=
    foldl scanSegment (SegmentScan [] (totalBytes acc) fromSubject.1 0)
          (NzbFile.Segments file) in
  FileScan
    (wrap64 (segments acc + Z.of_nat (length (NzbFile.Segments file))))
    (wrap64 (totalSegments acc + totalFileSegments segs))
    (segTotalBytes segs)
    fromSubject.2
    (done_ acc
     ++ [NzbFile.setTotals (totalFileSegments segs) (totalFileBytes segs)
           (NzbFile.setSegments (scanned segs) (nameFile file))]).

(** scan the nzb struct for additional information *)
Definition ScanNzbFile (nzb : Nzb.t) : Nzb.t :=
  let scan := foldl scanFile (FileScan 0 0 0 0 []) (Nzb.Files nzb) in
  let len := Z.of_nat (length (Nzb.Files nzb)) in
  Nzb.mk (Nzb.Comment nzb) (Nzb.Meta nzb) (done_ scan)
    (if totalFiles scan <? len then len else totalFiles scan)
    (segments scan) (totalSegments scan) (totalBytes scan).

End Scan.

(** The loops of [MakeUnique]: the helper map records, for each key seen,
    the position of its entry in the result. *)
Section Unique.

Context {A : Type} (key : A -> string).

Definition collect (st : gmap string nat * list A) (x : A) : gmap string nat * list A :=
  match st.1 !! key x with
  | Some _ => st     (* already found, skip it *)
  | None => (<[key x := length st.2]> st.1, st.2 ++ [x])
  end.

Definition unique (l : list A) : list A := (foldl collect (∅, []) l).2.

End Unique.

(** clean up nzb files by keeping only the first occurrence of duplicate
    file entries and removing duplicate segments *)
Definition MakeUnique (nzb : Nzb.t) : Nzb.t :=
  let uniqueFiles := unique NzbFile.Subject (Nzb.Files nzb) in
  Nzb.mk (Nzb.Comment nzb) (Nzb.Meta nzb)
    ((fun file =>
        NzbFile.setSegments (unique NzbSegment.ID (NzbFile.Segments file)) file)
       <$> uniqueFiles)
    (Nzb.TotalFiles nzb) (Nzb.Segments nzb) (Nzb.TotalSegments nzb) (Nzb.Bytes nzb).

(** temp raw meta data for (un)marshalling *)
Module xNzbMeta.

Record t : Type := mk { Type_ : string; Value : string }.

End xNzbMeta.

(** [ParseWithOptions], convert metadata: the entries of the file go into
    the map one after the other. *)
Definition convertMetadata (metadata : list xNzbMeta.t) : gmap string string :=
  foldl (fun meta md => <[xNzbMeta.Type_ md := xNzbMeta.Value md]> meta)
        ∅ metadata.



(** ** What the properties below speak about *)

(** Tables with no entries: a string outside ASCII is left as it is and
    compared byte for byte.  They serve to run the parser at given
    subjects. *)
Definition noTables : Unicode :=
  {| toLowerRunes := fun s => s; equalFoldRunes := String.eqb |}.

Definition noEntities : Html := {| UnescapeString := fun s => s |}.

(** [s] between two quotation marks *)
Definition inQuotes (s : string) : string :=
  String dquote (s +:+ String dquote EmptyString).

(** the four numbers of a subject *)
Definition numbers (subject : Subject.t) : Z * Z * Z * Z :=
  (File subject, TotalFiles subject, Segment subject, TotalSegments subject).

(** what the search for the header and the file name does not touch *)
Definition kept (subject : Subject.t) : string * (Z * Z * Z * Z) :=
  (Subject subject, numbers subject).

(** The matches of the pattern for number pairs in a subject line. *)
Definition numberMatches (s : string) : list groups :=
  default [] (findAllNamedMatches numbersRE (TrimSpace s)).

(** Some match holds a bracketed or a parenthesized pair. *)
Definition pairRecognized (s : string) : bool :=
  existsb (fun m => nonEmpty (get m "files") || nonEmpty (get m "segments"))
          (numberMatches s).

(** The [x of y] pattern matches in what the search for pairs left. *)
Definition ofRecognized (s : string) : bool :=
  match findAllNamedMatches ofRE (parseNumbers (newSubject s)).2 with
  | Some matches => nonEmpty (get (first matches) "files")
  | None => false
  end.

Definition numberingRecognized (s : string) : bool :=
  pairRecognized s || ofRecognized s.

(** Some pattern for a file name matches, or what is left of the subject
    line holds more than spaces and hyphens. *)
Definition nameRecognized (s : string) : bool :=
  let remainder := (numbering s).2 in
  bool_decide (is_Some (findAllNamedMatches quotedRE remainder))
  || bool_decide (is_Some (findAllNamedMatches plainRE remainder))
  || nonEmpty (Trim remainder " -")
  || bool_decide (is_Some (FindStringSubmatch leadBrackets (TrimSpace s))).

(** [result] keeps, in the order of [l], the first entry of [l] for each
    key, and nothing else. *)
Definition FirstOccurrences {A : Type} (key : A -> string) (l result : list A) : Prop :=
  sublist result l
  /\ NoDup (key <$> result)
  /\ (forall x, x ∈ l -> key x ∈ key <$> result)
  /\ (forall x, x ∈ result ->
        exists i, list_find (fun y => key y = key x) l = Some (i, x)).


(** *** What a pattern can capture

    [only P r]: [r] consumes no byte outside [P].  [capsOnly P D r]: the
    groups of [r] that [D] selects consume no byte outside [P]. *)
Section Checks.

Variable P : ascii -> bool.
Variable D : nat -> bool.

Fixpoint only (r : regex) : bool :=
  match r with
  | Empty | BeginText | EndText => true
  | Class p => forallb (fun a => implb (p a) (P a)) Bytes.all
  | Cat r1 r2 | Or r1 r2 => only r1 && only r2
  | Rep _ r1 | Cap _ r1 => only r1
  end.

Fixpoint capsOnly (r : regex) : bool :=
  match r with
  | Empty | BeginText | EndText | Class _ => true
  | Cat r1 r2 | Or r1 r2 => capsOnly r1 && capsOnly r2
  | Rep _ r1 => capsOnly r1
  | Cap n r1 => (if D n then only r1 else true) && capsOnly r1
  end.

Definition goodCaps (c : captures) : Prop :=
  Forall (fun e => D e.1 = true -> Str.all P e.2 = true) c.

(** What a continuation is handed when the search goes on to succeed
    with [res]: the rest of the text after some [w], which is within [P]
    when the pattern is, and captures that are good. *)
Definition reaches {R : Type} (within : bool) (k : @cont R) (pos : nat)
    (s : string) (res : R) : Prop :=
  exists w s' c',
    s = w +:+ s' /\ (within = true -> Str.all P w = true)
    /\ goodCaps c' /\ k (pos + String.length w)%nat s' c' = Some res.

End Checks.

(** the groups [file], [totalfiles], [segment] and [totalsegments] *)
Definition numberGroup (n : nat) : bool := bool_decide (n ∈ [3; 4; 6; 7]%nat).

Definition digitsIn (names : list string) (m : groups) : Prop :=
  Forall (fun name => Str.all Bytes.isDigit (get m name) = true) names.

(** a value that Go's [int] holds and that is not negative *)
Definition inRange (z : Z) : Prop := 0 <= z <= strconv.maxInt64.

Definition numbersInRange (subject : Subject.t) : Prop :=
  inRange (File subject) /\ inRange (TotalFiles subject)
  /\ inRange (Segment subject) /\ inRange (TotalSegments subject).

(** what [nameFile] takes from the subject of a file *)
Definition namedAfter `{Unicode} (file file' : NzbFile.t) : Prop :=
  let subject := (ParseSubject (NzbFile.Subject file)).1 in
  NzbFile.Number file' = File subject
  /\ NzbFile.Filename file'
     = (if nonEmpty (Filename subject) then Filename subject else Header subject).


(** the helper map knows exactly the keys of the entries collected *)
Definition tracks {A : Type} (key : A -> string)
    (st : gmap string nat * list A) : Prop :=
  forall k, st.1 !! k = None <-> k ∉ key <$> st.2.

(** *** The number pairs of a subject line *)

Inductive pairShape : Type := Bracketed | Parenthesized.

(** The pair that a match holds, as the loop over the matches reads it:
    the [files] group is looked at first. *)
Definition pairOf (m : groups) : option (pairShape * Z * Z) :=
  if nonEmpty (get m "files") then
    Some (Bracketed, atoi (get m "file"), atoi (get m "totalfiles"))
  else if nonEmpty (get m "segments") then
    Some (Parenthesized, atoi (get m "segment"), atoi (get m "totalsegments"))
  else None.

(** the pairs found in a subject line, from left to right *)
Definition pairs (s : string) : list (pairShape * Z * Z) :=
  omap pairOf (numberMatches s).

(** *** Trimmed strings *)

(** the white-space rune at the head of [s], if any, is skipped *)
Definition startsWithSpace (backwards : bool) (s : string) : bool :=
  match s with
  | EmptyString => false
  | String a s1 =>
      asciiSpace a
      || match s1 with
         | EmptyString => false
         | String b s2 =>
             (if backwards then space2 b a else space2 a b)
             || match s2 with
                | EmptyString => false
                | String c _ => if backwards then space3 c b a else space3 a b c
                end
         end
  end.

(** [s] does not begin with a byte of [cutset] *)
Definition startsClean (cutset s : string) : bool :=
  match s with
  | EmptyString => true
  | String a _ => negb (Str.contains (String a EmptyString) cutset)
  end.

(** [s] neither begins nor ends with a byte of [cutset] *)
Definition edgesClean (cutset s : string) : bool :=
  startsClean cutset s && startsClean cutset (Str.rev s).

(** the header and the base file name have clean edges *)
Definition cleanNames (subject : Subject.t) : Prop :=
  edgesClean " -" (Header subject) = true
  /\ edgesClean " -" (Basefilename subject) = true.

(** *** Sums and bounds for [ScanNzbFile] *)

Definition sumZ (l : list Z) : Z := foldr Z.add 0 l.

(** the values of Go's [int] and [int64] *)
Definition int64 (z : Z) : Prop := - 2 ^ 63 <= z < 2 ^ 63.

(** [m] is the greatest of [start] and the values [l] *)
Definition greatest (start : Z) (l : list Z) (m : Z) : Prop :=
  start <= m /\ Forall (fun z => z <= m) l /\ (m = start \/ m ∈ l).

(** the bytes of the segments of a file *)
Definition segmentBytes (file : NzbFile.t) : Z :=
  sumZ (NzbSegment.Bytes <$> NzbFile.Segments file).

(** What the loop of [ScanNzbFile] leaves of a file, besides its Number
    and Filename: the attributes read from the nzb file are kept, the IDs
    of the segments are unescaped, the Bytes are those of the segments
    and TotalSegments is the greatest of the total in the subject and
    the segment numbers. *)
Definition scannedFrom `{Unicode} `{Html} (file file' : NzbFile.t) : Prop :=
  NzbFile.Groups file' = NzbFile.Groups file
  /\ NzbFile.Poster file' = NzbFile.Poster file
  /\ NzbFile.Date file' = NzbFile.Date file
  /\ NzbFile.Subject file' = NzbFile.Subject file
  /\ NzbFile.FileHash file' = NzbFile.FileHash file
  /\ NzbFile.Basefilename file' = NzbFile.Basefilename file
  /\ NzbFile.Segments file'
     = ((fun seg => NzbSegment.setID (UnescapeString (NzbSegment.ID seg)) seg)
          <$> NzbFile.Segments file)
  /\ NzbFile.Bytes file' = wrap64 (segmentBytes file)
  /\ greatest (TotalSegments (ParseSubject (NzbFile.Subject file)).1)
              (NzbSegment.Number <$> NzbFile.Segments file)
              (NzbFile.TotalSegments file').

Section Nesting.

Variables outer inner : nat.

(** neither of the two groups is closed in [r] *)
Fixpoint free (r : regex) : bool :=
  match r with
  | Empty | BeginText | EndText | Class _ => true
  | Cat r1 r2 | Or r1 r2 => free r1 && free r2
  | Rep _ r1 => free r1
  | Cap n r1 => negb (n =? outer)%nat && negb (n =? inner)%nat && free r1
  end.

(** the group [outer] is only closed around a pattern that begins with
    the group [inner], which is closed nowhere else *)
Fixpoint nests (r : regex) : bool :=
  match r with
  | Empty | BeginText | EndText | Class _ => true
  | Cat r1 r2 | Or r1 r2 => nests r1 && nests r2
  | Rep _ r1 => nests r1
  | Cap n r1 =>
      if (n =? outer)%nat then
        match r1 with
        | Cat (Cap m r11) r12 => (m =? inner)%nat && free r11 && free r12
        | _ => false
        end
      else negb (n =? inner)%nat && nests r1
  end.

(** the text of [outer] begins with the text of [inner] *)
Definition nested (c : captures) : Prop :=
  exists w, capture c outer = capture c inner +:+ w.

(** the text moves on and the two groups stay as they are *)
Definition framed (s : string) (c : captures) (s' : string) (c' : captures) : Prop :=
  (exists w, s = w +:+ s')
  /\ capture c' outer = capture c outer /\ capture c' inner = capture c inner.

Definition keepsNested (s : string) (c : captures) (s' : string) (c' : captures) : Prop :=
  nested c -> nested c'.

End Nesting.

(** Every success of [body] goes through its continuation, at a text and
    captures that [T] relates to those it started from. *)
Definition passes {R : Type} (T : string -> captures -> string -> captures -> Prop)
    (body : nat -> string -> captures -> @cont R -> option R) : Prop :=
  forall pos s c k res, body pos s c k = Some res ->
    exists pos' s' c', T s c s' c' /\ k pos' s' c' = Some res.

(** the bytes of a cutset *)
Definition inCutset (cutset : string) (a : ascii) : bool :=
  Str.contains (String a EmptyString) cutset.

(** a subject with a base file name has a file name *)
Definition baseHasFile (subject : Subject.t) : Prop :=
  Filename subject = EmptyString -> Basefilename subject = EmptyString.

(** What [ScanNzbFile] reads of a segment and of a file: two segments, or
    two files, that agree on it. *)
Definition sameSegment `{Html} (seg seg' : NzbSegment.t) : Prop :=
  NzbSegment.Bytes seg' = NzbSegment.Bytes seg
  /\ NzbSegment.Number seg' = NzbSegment.Number seg
  /\ UnescapeString (NzbSegment.ID seg') = UnescapeString (NzbSegment.ID seg).

Definition sameFile `{Html} (file file' : NzbFile.t) : Prop :=
  NzbFile.Groups file' = NzbFile.Groups file
  /\ NzbFile.Poster file' = NzbFile.Poster file
  /\ NzbFile.Date file' = NzbFile.Date file
  /\ NzbFile.Subject file' = NzbFile.Subject file
  /\ NzbFile.FileHash file' = NzbFile.FileHash file
  /\ NzbFile.Basefilename file' = NzbFile.Basefilename file
  /\ Forall2 sameSegment (NzbFile.Segments file) (NzbFile.Segments file').


(** * Properties *)

(** ** The second part of [ParseSubject] leaves the numbers alone *)

Section NamesKeepNumbers.

Context `{Unicode}.

Lemma parseName_kept subject remainder :
  kept (parseName subject remainder) = kept subject.
Proof. unfold parseName. repeat case_match; reflexivity. Qed.

Lemma preferWithExt_kept later : forall subject quoted0,
  kept (preferWithExt subject quoted0 later) = kept subject.
Proof.
  induction later as [|qi later IH]; intros subject quoted0; simpl.
  - reflexivity.
  - repeat case_match; try apply IH; reflexivity.
Qed.

Lemma dualQuote_kept subject remainder :
  kept (dualQuote subject remainder) = kept subject.
Proof.
  unfold dualQuote. repeat case_match; try reflexivity.
  apply preferWithExt_kept.
Qed.

Lemma pickCandidate_kept later : forall subject quoted0,
  kept (pickCandidate subject quoted0 later) = kept subject.
Proof.
  induction later as [|qi later IH]; intros subject quoted0; simpl.
  - reflexivity.
  - repeat case_match; try apply IH; reflexivity.
Qed.

Lemma refineExtension_kept subject remainder :
  kept (refineExtension subject remainder) = kept subject.
Proof.
  unfold refineExtension. repeat case_match; try reflexivity;
    apply pickCandidate_kept.
Qed.

Lemma backfillHeader_kept subject :
  kept (backfillHeader subject) = kept subject.
Proof. unfold backfillHeader. case_match; reflexivity. Qed.

Lemma leadingFallback_kept subject :
  kept (leadingFallback subject) = kept subject.
Proof. unfold leadingFallback. repeat case_match; reflexivity. Qed.

(** The numbers that [ParseSubject] returns are those of its first part. *)
Lemma ParseSubject_kept s :
  kept (ParseSubject s).1 = kept (numbering s).1.
Proof.
  unfold ParseSubject; cbn [fst snd].
  rewrite leadingFallback_kept, backfillHeader_kept,
    refineExtension_kept, dualQuote_kept, parseName_kept.
  reflexivity.
Qed.

Lemma kept_eq x y :
  kept x = kept y ->
  Subject x = Subject y /\ File x = File y /\ TotalFiles x = TotalFiles y
  /\ Segment x = Segment y /\ TotalSegments x = TotalSegments y.
Proof. unfold kept, numbers. intros [= -> -> -> -> ->]. auto. Qed.

Lemma ParseSubject_numbers s :
  numbers (ParseSubject s).1 = numbers (numbering s).1.
Proof.
  destruct (kept_eq _ _ (ParseSubject_kept s)) as (_ & HF & HTF & HS & HTS).
  unfold numbers. rewrite HF, HTF, HS, HTS. reflexivity.
Qed.

End NamesKeepNumbers.


(** ** The numbers *)

Lemma isEmpty_true s : Str.isEmpty s = true <-> s = EmptyString.
Proof. destruct s; simpl; split; congruence. Qed.

Lemma nonEmpty_false s : nonEmpty s = false <-> s = EmptyString.
Proof. unfold nonEmpty. rewrite negb_false_iff. apply isEmpty_true. Qed.

Lemma defaultSegments_total subject :
  TotalSegments (defaultSegments subject) <> 0.
Proof.
  unfold defaultSegments.
  destruct (TotalSegments subject =? 0) eqn:E; simpl; lia.
Qed.

Lemma defaultSegments_files subject :
  File (defaultSegments subject) = File subject
  /\ TotalFiles (defaultSegments subject) = TotalFiles subject.
Proof. unfold defaultSegments. case_match; split; reflexivity. Qed.

Lemma parseFilesOf_segments subject remainder :
  Segment (parseFilesOf subject remainder).1 = Segment subject
  /\ TotalSegments (parseFilesOf subject remainder).1 = TotalSegments subject.
Proof. unfold parseFilesOf. repeat case_match; split; reflexivity. Qed.

(** Whatever the search for pairs found, the total of segments is not
    zero once the default has been applied. *)
Lemma numbering_total_segments s : TotalSegments (numbering s).1 <> 0.
Proof.
  unfold numbering.
  rewrite (proj2 (parseFilesOf_segments _ _)).
  apply defaultSegments_total.
Qed.

(** Matches without a pair assign nothing. *)
Lemma assignBackwards_nothing matches st :
  Forall (fun m => get m "files" = EmptyString /\ get m "segments" = EmptyString) matches ->
  File st.1 = 0 -> Segment st.1 = 0 ->
  assignBackwards matches st = st.
Proof.
  induction 1 as [|m matches [Hf Hs] _ IH]; intros HF HS; simpl.
  - reflexivity.
  - rewrite IH by assumption.
    unfold assignNumbers. rewrite HF, HS, Hf, Hs. reflexivity.
Qed.

Lemma pairRecognized_false s :
  pairRecognized s = false ->
  Forall (fun m => get m "files" = EmptyString /\ get m "segments" = EmptyString)
         (numberMatches s).
Proof.
  unfold pairRecognized. intros Hex.
  apply Forall_forall. intros m Hin.
  assert (Hm : (nonEmpty (get m "files") || nonEmpty (get m "segments")) = false).
  { destruct (nonEmpty (get m "files") || nonEmpty (get m "segments")) eqn:E;
      [|reflexivity].
    rewrite <- Hex. symmetry. apply existsb_exists. exists m. split; [|exact E].
    apply list_elem_of_In. exact Hin. }
  apply orb_false_iff in Hm as [Hf Hs].
  split; apply nonEmpty_false; assumption.
Qed.

(** With no pair and no [x of y], the numbers are the defaults. *)
Lemma numbering_defaults s :
  numberingRecognized s = false -> numbers (numbering s).1 = (1, 1, 1, 1).
Proof.
  unfold numberingRecognized. intros Hrec.
  apply orb_false_iff in Hrec as [Hpair Hof].
  apply pairRecognized_false in Hpair.
  unfold ofRecognized in Hof.
  assert (Hnum : (parseNumbers (newSubject s)).1 = newSubject s).
  { unfold parseNumbers, numberMatches in *. cbn [Subject newSubject] in *.
    destruct (findAllNamedMatches numbersRE (TrimSpace s)) as [matches|];
      [|reflexivity].
    cbn [fst default] in *.
    rewrite assignBackwards_nothing; auto. }
  unfold numbering. rewrite Hnum.
  unfold parseFilesOf, defaultSegments. cbn.
  destruct (findAllNamedMatches ofRE (parseNumbers (newSubject s)).2);
    [rewrite Hof|]; reflexivity.
Qed.


(** ** What the patterns capture *)

Lemma append_nil_l (s : string) : EmptyString +:+ s = s.
Proof. reflexivity. Qed.

Lemma append_cons a (s t : string) : String a s +:+ t = String a (s +:+ t).
Proof. reflexivity. Qed.

Lemma append_nil_r s : s +:+ EmptyString = s.
Proof. induction s; rewrite ?append_cons; [reflexivity | congruence]. Qed.

Lemma append_assoc (a b c : string) : (a +:+ b) +:+ c = a +:+ (b +:+ c).
Proof. induction a; rewrite ?append_cons; [reflexivity | congruence]. Qed.

Lemma length_append (a b : string) :
  String.length (a +:+ b) = (String.length a + String.length b)%nat.
Proof. induction a; rewrite ?append_cons; simpl; [reflexivity | congruence]. Qed.

Lemma take_append (w s : string) : Str.take (String.length w) (w +:+ s) = w.
Proof.
  induction w; rewrite ?append_cons; simpl;
    [destruct s; reflexivity | congruence].
Qed.

Lemma consumed_append (w s : string) : Str.consumed (w +:+ s) s = w.
Proof.
  unfold Str.consumed. rewrite length_append.
  replace (String.length w + String.length s - String.length s)%nat
    with (String.length w) by lia.
  apply take_append.
Qed.

Lemma all_append p (a b : string) :
  Str.all p (a +:+ b) = Str.all p a && Str.all p b.
Proof.
  induction a; rewrite ?append_cons; simpl;
    [reflexivity | rewrite IHa; apply andb_assoc].
Qed.

Lemma Bytes_all_complete a : In a Bytes.all.
Proof.
  unfold Bytes.all. apply in_map_iff. exists (nat_of_ascii a). split.
  - apply ascii_nat_embedding.
  - apply in_seq. pose proof (nat_ascii_bounded a). lia.
Qed.

Section Sound.

Variable P : ascii -> bool.
Variable D : nat -> bool.
Context {R : Type}.

Lemma iterate_sound (body : nat -> string -> captures -> @cont R -> option R)
    (o greedy : bool) (k : @cont R) :
  (forall pos s c k' res, goodCaps P D c -> body pos s c k' = Some res ->
     reaches P D o k' pos s res) ->
  forall fuel pos s c res, goodCaps P D c ->
    iterate body greedy k fuel pos s c = Some res -> reaches P D o k pos s res.
Proof.
  intros Hbody. induction fuel as [|fuel IH]; intros pos s c res Hc Hit.
  - exists EmptyString, s, c. simpl in *. rewrite Nat.add_0_r. auto.
  - simpl in Hit.
    assert (Hstop : k pos s c = Some res -> reaches P D o k pos s res).
    { intros Hk. exists EmptyString, s, c. simpl. rewrite Nat.add_0_r. auto. }
    assert (Hmore : forall again,
      again = (fun pos' s' c' =>
         if (pos <? pos')%nat then iterate body greedy k fuel pos' s' c' else None) ->
      body pos s c again = Some res -> reaches P D o k pos s res).
    { intros again -> Hb.
      destruct (Hbody _ _ _ _ _ Hc Hb) as (w1 & s1 & c1 & -> & Hw1 & Hc1 & Hk1).
      destruct (pos <? pos + String.length w1)%nat; [|discriminate].
      destruct (IH _ _ _ _ Hc1 Hk1) as (w2 & s2 & c2 & -> & Hw2 & Hc2 & Hk2).
      exists (w1 +:+ w2), s2, c2. split; [symmetry; apply append_assoc|].
      split; [|split; [exact Hc2|]].
      - intros Ho. rewrite all_append, Hw1, Hw2 by exact Ho. reflexivity.
      - rewrite length_append, Nat.add_assoc. exact Hk2. }
    destruct greedy.
    + destruct (body pos s c _) eqn:Hb; [|auto].
      inversion Hit; subst. eapply Hmore; [reflexivity | exact Hb].
    + destruct (k pos s c) eqn:Hk; [inversion Hit; subst; auto|].
      eapply Hmore; [reflexivity | exact Hit].
Qed.

Lemma exec_sound r :
  capsOnly P D r = true ->
  forall (k : @cont R) pos s c res, goodCaps P D c ->
    exec r pos s c k = Some res -> reaches P D (only P r) k pos s res.
Proof.
  induction r as [|p|r1 IH1 r2 IH2|r1 IH1 r2 IH2|g r1 IH1|n r1 IH1| |];
    intros Hwf k pos s c res Hc Hex; cbn [exec capsOnly only] in *.
  - exists EmptyString, s, c. simpl. rewrite Nat.add_0_r. auto.
  - destruct s as [|a s']; [discriminate|].
    destruct (p a) eqn:Hp; [|discriminate].
    exists (String a EmptyString), s', c.
    split; [reflexivity|]. split; [|split; [exact Hc|]].
    + intros Ho. cbn [Str.all]. rewrite andb_true_r.
      rewrite forallb_forall in Ho. specialize (Ho a (Bytes_all_complete a)).
      rewrite Hp in Ho. exact Ho.
    + cbn [String.length]. replace (pos + 1)%nat with (S pos) by lia. exact Hex.
  - apply andb_true_iff in Hwf as [Hwf1 Hwf2].
    destruct (IH1 Hwf1 _ _ _ _ _ Hc Hex) as (w1 & s1 & c1 & -> & Hw1 & Hc1 & Hk1).
    destruct (IH2 Hwf2 _ _ _ _ _ Hc1 Hk1) as (w2 & s2 & c2 & -> & Hw2 & Hc2 & Hk2).
    exists (w1 +:+ w2), s2, c2. split; [symmetry; apply append_assoc|].
    split; [|split; [exact Hc2|]].
    + intros Ho. apply andb_true_iff in Ho as [Ho1 Ho2].
      rewrite all_append, Hw1, Hw2 by assumption. reflexivity.
    + rewrite length_append, Nat.add_assoc. exact Hk2.
  - apply andb_true_iff in Hwf as [Hwf1 Hwf2].
    destruct (exec r1 pos s c k) eqn:E1.
    + inversion Hex; subst.
      destruct (IH1 Hwf1 _ _ _ _ _ Hc E1) as (w & s' & c' & ? & Hw & ? & ?).
      exists w, s', c'. repeat split; auto.
      intros Ho. apply andb_true_iff in Ho as [Ho1 Ho2]. auto.
    + destruct (IH2 Hwf2 _ _ _ _ _ Hc Hex) as (w & s' & c' & ? & Hw & ? & ?).
      exists w, s', c'. repeat split; auto.
      intros Ho. apply andb_true_iff in Ho as [Ho1 Ho2]. auto.
  - eapply iterate_sound; [|exact Hc|exact Hex].
    intros pos0 s0 c0 k' res0 Hc0 Hb. exact (IH1 Hwf _ _ _ _ _ Hc0 Hb).
  - apply andb_true_iff in Hwf as [HD Hwf1].
    destruct (IH1 Hwf1 _ _ _ _ _ Hc Hex) as (w & s' & c' & -> & Hw & Hc' & Hk).
    exists w, s', ((n, Str.consumed (w +:+ s') s') :: c').
    repeat split; auto.
    constructor; [|exact Hc']. simpl. intros Hn.
    rewrite consumed_append. rewrite Hn in HD. auto.
  - destruct (pos =? 0)%nat; [|discriminate].
    exists EmptyString, s, c. simpl. rewrite Nat.add_0_r. auto.
  - destruct (Str.isEmpty s); [|discriminate].
    exists EmptyString, s, c. simpl. rewrite Nat.add_0_r. auto.
Qed.

End Sound.

(** *** What [search] and [allMatches] return *)

Section Found.

Variable P : ascii -> bool.
Variable D : nat -> bool.

Lemma search_sound r : capsOnly P D r = true ->
  forall s pos m, search r pos s = Some m ->
    goodCaps P D (mCaps m)
    /\ (pos <= mBegin m <= mEnd m)%nat
    /\ (mEnd m <= pos + String.length s)%nat.
Proof.
  intros Hwf. induction s as [|a s IH]; intros pos m Hs; simpl in Hs.
  - destruct (exec r pos EmptyString [] _) eqn:E; [|discriminate].
    inversion Hs; subst.
    apply (exec_sound P D r Hwf) in E as (w & s' & c' & Hw & _ & Hc & Hk);
      [|constructor].
    inversion Hk; subst; simpl.
    assert (String.length (w +:+ s') = 0%nat) by (rewrite <- Hw; reflexivity).
    rewrite length_append in *. split; [assumption|lia].
  - destruct (exec r pos (String a s) [] _) eqn:E.
    + inversion Hs; subst.
      apply (exec_sound P D r Hwf) in E as (w & s' & c' & Hw & _ & Hc & Hk);
        [|constructor].
      inversion Hk; subst; simpl.
      assert (String.length (w +:+ s') = S (String.length s))
        by (rewrite <- Hw; reflexivity).
      rewrite length_append in *. split; [assumption|lia].
    + apply IH in Hs as (Hc & Hb & He). split; [assumption|]. simpl. lia.
Qed.

Lemma allMatches_sound r text : capsOnly P D r = true ->
  forall fuel pos prev,
    Forall (fun m => goodCaps P D (mCaps m)) (allMatches fuel r text pos prev).
Proof.
  intros Hwf. induction fuel as [|fuel IH]; intros pos prev; simpl.
  - constructor.
  - destruct (String.length text <? pos)%nat; [constructor|].
    destruct (search r pos (Str.drop pos text)) as [m|] eqn:Hs; [|constructor].
    apply (search_sound r Hwf) in Hs as (Hc & _).
    destruct (negb _); [constructor; [exact Hc|]|]; apply IH.
Qed.

Lemma capture_good c n :
  goodCaps P D c -> D n = true -> Str.all P (capture c n) = true.
Proof.
  induction 1 as [|[m w] c Hm _ IH]; intros Hn; simpl.
  - reflexivity.
  - destruct (m =? n)%nat eqn:E; [|auto].
    apply Nat.eqb_eq in E. subst. auto.
Qed.

End Found.

(** *** The number groups hold digits *)

Lemma numbersRE_wf : capsOnly Bytes.isDigit numberGroup (prog numbersRE) = true.
Proof. vm_compute. reflexivity. Qed.

Lemma ofRE_wf : capsOnly Bytes.isDigit numberGroup (prog ofRE) = true.
Proof. vm_compute. reflexivity. Qed.

Lemma numbersRE_groups text m :
  goodCaps Bytes.isDigit numberGroup (mCaps m) ->
  digitsIn ["file"; "totalfiles"; "segment"; "totalsegments"]
           (namedGroups (SubexpNames numbersRE) (submatches numbersRE text m)).
Proof.
  intros Hc. unfold submatches.
  generalize (Str.take (mEnd m - mBegin m) (Str.drop (mBegin m) text)) as whole.
  intros whole. cbn -[capture].
  unfold digitsIn, get.
  repeat constructor; simplify_map_eq; cbn [default];
    apply (capture_good Bytes.isDigit numberGroup); auto.
Qed.

Lemma ofRE_groups text m :
  goodCaps Bytes.isDigit numberGroup (mCaps m) ->
  digitsIn ["file"; "totalfiles"]
           (namedGroups (SubexpNames ofRE) (submatches ofRE text m)).
Proof.
  intros Hc. unfold submatches.
  generalize (Str.take (mEnd m - mBegin m) (Str.drop (mBegin m) text)) as whole.
  intros whole. cbn -[capture].
  unfold digitsIn, get.
  repeat constructor; simplify_map_eq; cbn [default];
    apply (capture_good Bytes.isDigit numberGroup); auto.
Qed.

Lemma findAllNamedMatches_good re names text matches :
  capsOnly Bytes.isDigit numberGroup (prog re) = true ->
  (forall m, goodCaps Bytes.isDigit numberGroup (mCaps m) ->
     digitsIn names (namedGroups (SubexpNames re) (submatches re text m))) ->
  findAllNamedMatches re text = Some matches ->
  Forall (digitsIn names) matches.
Proof.
  intros Hwf Hgroups. unfold findAllNamedMatches, FindAllStringSubmatch.
  pose proof (allMatches_sound Bytes.isDigit numberGroup (prog re) text Hwf
                (String.length text + 2) 0 None) as Hall.
  destruct (allMatches _ _ _ _ _) as [|m ms]; [discriminate|].
  cbn [fmap option_fmap option_map]. intros [= <-].
  change (Forall (digitsIn names)
            (map (namedGroups (SubexpNames re))
                 (map (submatches re text) (m :: ms)))).
  induction Hall as [|m' ms' Hm' _ IH]; simpl; constructor; auto.
Qed.

Lemma numbersRE_digits text matches :
  findAllNamedMatches numbersRE text = Some matches ->
  Forall (digitsIn ["file"; "totalfiles"; "segment"; "totalsegments"]) matches.
Proof.
  apply findAllNamedMatches_good; [exact numbersRE_wf|].
  intros m. apply numbersRE_groups.
Qed.

Lemma ofRE_digits text matches :
  findAllNamedMatches ofRE text = Some matches ->
  Forall (digitsIn ["file"; "totalfiles"]) matches.
Proof.
  apply findAllNamedMatches_good; [exact ofRE_wf|].
  intros m. apply ofRE_groups.
Qed.

(** *** [Atoi] on digits *)

Lemma parseDigits_range s : forall n,
  0 <= n <= strconv.maxUint64 -> 0 <= (strconv.parseDigits s n).1 <= strconv.maxUint64.
Proof.
  induction s as [|c s IH]; intros n Hn; simpl.
  - exact Hn.
  - destruct (Bytes.isDigit c) eqn:Hd; [|simpl; unfold strconv.maxUint64; lia].
    destruct (n >=? _); [simpl; unfold strconv.maxUint64; lia|].
    destruct (_ >? strconv.maxUint64) eqn:Hgt; [simpl; unfold strconv.maxUint64; lia|].
    apply IH. unfold Bytes.isDigit, Bytes.between in Hd.
    apply andb_true_iff in Hd as [Hlo Hhi].
    apply N.leb_le in Hlo, Hhi. lia.
Qed.

Lemma digit_no_sign c :
  Bytes.isDigit c = true ->
  Bytes.isByte "+" c = false /\ Bytes.isByte "-" c = false.
Proof.
  unfold Bytes.isByte. intros Hd.
  split; apply Ascii.eqb_neq; intros <-; discriminate Hd.
Qed.

Lemma atoi_digits s :
  Str.all Bytes.isDigit s = true -> 0 <= atoi s <= strconv.maxInt64.
Proof.
  unfold atoi, strconv.Atoi, strconv.ParseInt.
  destruct s as [|c s]; [intros _; simpl; unfold strconv.maxInt64; lia|].
  cbn [Str.all]. intros Hall. apply andb_true_iff in Hall as [Hc _].
  destruct (digit_no_sign c Hc) as [-> ->]. cbn [orb negb andb].
  pose proof (parseDigits_range (String c s) 0) as Hr.
  unfold strconv.ParseUint.
  destruct (strconv.parseDigits (String c s) 0) as [un [[]|]];
    cbn [fst] in *; try (unfold strconv.maxInt64; lia);
    destruct (un >=? strconv.maxInt64 + 1) eqn:E; cbn [fst];
    unfold strconv.maxInt64, strconv.maxUint64 in *; lia.
Qed.

(** *** The numbers are in range *)

Lemma digitsIn_atoi names m name :
  digitsIn names m -> name ∈ names -> inRange (atoi (get m name)).
Proof.
  unfold digitsIn. rewrite Forall_forall. intros Hall Hin.
  apply atoi_digits. apply Hall. exact Hin.
Qed.

Lemma assignNumbers_range m st :
  digitsIn ["file"; "totalfiles"; "segment"; "totalsegments"] m ->
  numbersInRange st.1 -> numbersInRange (assignNumbers m st).1.
Proof.
  intros Hm (HF & HTF & HS & HTS).
  assert (H1 := digitsIn_atoi _ m "file" Hm ltac:(set_solver)).
  assert (H2 := digitsIn_atoi _ m "totalfiles" Hm ltac:(set_solver)).
  assert (H3 := digitsIn_atoi _ m "segment" Hm ltac:(set_solver)).
  assert (H4 := digitsIn_atoi _ m "totalsegments" Hm ltac:(set_solver)).
  unfold assignNumbers, numbersInRange.
  repeat case_match; cbn; auto.
Qed.

Lemma assignBackwards_range matches st :
  Forall (digitsIn ["file"; "totalfiles"; "segment"; "totalsegments"]) matches ->
  numbersInRange st.1 -> numbersInRange (assignBackwards matches st).1.
Proof.
  induction 1 as [|m matches Hm _ IH]; intros Hst; simpl.
  - exact Hst.
  - apply assignNumbers_range; auto.
Qed.

Lemma newSubject_range s : numbersInRange (newSubject s).
Proof. unfold numbersInRange, inRange, strconv.maxInt64. cbn. lia. Qed.

Lemma parseNumbers_range s : numbersInRange (parseNumbers (newSubject s)).1.
Proof.
  unfold parseNumbers.
  destruct (findAllNamedMatches numbersRE _) as [matches|] eqn:E; cbn [fst].
  - apply assignBackwards_range; [|apply newSubject_range].
    exact (numbersRE_digits _ _ E).
  - apply newSubject_range.
Qed.

Lemma first_digits names matches :
  Forall (digitsIn names) matches -> digitsIn names (first matches).
Proof.
  intros [|m ms Hm _]; cbn; [|exact Hm].
  apply Forall_forall. intros name _. reflexivity.
Qed.

Lemma parseFilesOf_range subject remainder :
  numbersInRange subject -> numbersInRange (parseFilesOf subject remainder).1.
Proof.
  intros (HF & HTF & HS & HTS). unfold parseFilesOf.
  assert (Hone : inRange 1) by (unfold inRange, strconv.maxInt64; lia).
  destruct (TotalFiles subject =? 0); [|(unfold numbersInRange; cbn; auto)].
  destruct (findAllNamedMatches ofRE remainder) as [matches|] eqn:E;
    [|(unfold numbersInRange; cbn; auto)].
  pose proof (first_digits _ _ (ofRE_digits _ _ E)) as Hm.
  assert (H1 := digitsIn_atoi _ _ "file" Hm ltac:(set_solver)).
  assert (H2 := digitsIn_atoi _ _ "totalfiles" Hm ltac:(set_solver)).
  destruct (nonEmpty _); (unfold numbersInRange; cbn; auto).
Qed.

Lemma defaultSegments_range subject :
  numbersInRange subject -> numbersInRange (defaultSegments subject).
Proof.
  intros (HF & HTF & HS & HTS). unfold defaultSegments.
  assert (Hone : inRange 1) by (unfold inRange, strconv.maxInt64; lia).
  destruct (TotalSegments subject =? 0); (unfold numbersInRange; cbn; auto).
Qed.

Lemma numbering_range s : numbersInRange (numbering s).1.
Proof.
  unfold numbering.
  apply parseFilesOf_range, defaultSegments_range, parseNumbers_range.
Qed.


(** ** The subject parser *)

Section ParseSubjectFacts.

Context `{Unicode}.

Lemma ParseSubject_fst s :
  (ParseSubject s).1
  = leadingFallback
      (backfillHeader
         (refineExtension
            (dualQuote (parseName (numbering s).1 (numbering s).2)
               (numbering s).2) (numbering s).2)).
Proof. unfold ParseSubject. cbn [fst]. reflexivity. Qed.

Lemma ParseSubject_pair s : ParseSubject s = ((ParseSubject s).1, None).
Proof. unfold ParseSubject. cbn [fst]. reflexivity. Qed.


(** The first part of [ParseSubject] only sets numbers. *)
Lemma numbering_texts s :
  Subject (numbering s).1 = TrimSpace s
  /\ Header (numbering s).1 = EmptyString
  /\ Filename (numbering s).1 = EmptyString
  /\ Basefilename (numbering s).1 = EmptyString.
Proof.
  assert (Hassign : forall matches st,
    (Subject (assignBackwards matches st).1, Header (assignBackwards matches st).1,
     Filename (assignBackwards matches st).1, Basefilename (assignBackwards matches st).1)
    = (Subject st.1, Header st.1, Filename st.1, Basefilename st.1)).
  { induction matches as [|m matches IH]; intros st; simpl; [reflexivity|].
    etransitivity; [|apply IH].
    unfold assignNumbers. repeat case_match; reflexivity. }
  unfold numbering, parseNumbers, parseFilesOf, defaultSegments.
  destruct (findAllNamedMatches numbersRE _) as [matches|]; cbn [fst snd].
  - specialize (Hassign matches (newSubject s, false)).
    injection Hassign as H1 H2 H3 H4.
    repeat case_match; cbn; auto.
  - repeat case_match; cbn; auto.
Qed.

(** With nothing recognized, no pass assigns anything but the defaults. *)
Lemma ParseSubject_nothing s :
  numberingRecognized s = false -> nameRecognized s = false ->
  (ParseSubject s).1 = Subject.mk (TrimSpace s) "" "" "" 1 1 1 1.
Proof.
  intros Hnum Hname.
  pose proof (numbering_defaults s Hnum) as Hdef.
  destruct (numbering_texts s) as (HS & HH & HF & HB).
  unfold nameRecognized in Hname.
  repeat (apply orb_false_iff in Hname as [Hname ?]).
  rewrite ParseSubject_fst.
  destruct (numbering s) as [subject remainder]. cbn [fst snd] in *.
  destruct subject as [su he fi ba f tf sg ts]. cbn in HS, HH, HF, HB, Hdef.
  injection Hdef as -> -> -> ->. subst.
  assert (Hq : findAllNamedMatches quotedRE remainder = None).
  { destruct (findAllNamedMatches quotedRE remainder); [|reflexivity].
    rewrite bool_decide_eq_false in Hname. destruct Hname. eauto. }
  assert (Hp : findAllNamedMatches plainRE remainder = None).
  { destruct (findAllNamedMatches plainRE remainder); [|reflexivity].
    rewrite bool_decide_eq_false in H2. destruct H2. eauto. }
  assert (Hl : FindStringSubmatch leadBrackets (TrimSpace s) = None).
  { destruct (FindStringSubmatch leadBrackets (TrimSpace s)); [|reflexivity].
    rewrite bool_decide_eq_false in H0. destruct H0. eauto. }
  apply nonEmpty_false in H1.
  unfold parseName. rewrite Hq, Hp. cbn [TotalFiles Z.eqb Pos.eqb].
  rewrite H1.
  unfold dualQuote, refineExtension, backfillHeader, leadingFallback.
  cbn [Subject Header Filename Basefilename setBasefilename setFilename
       nonEmpty Str.isEmpty negb andb].
  rewrite Hl. reflexivity.
Qed.

(** C1: for the subject [[1/2] Test Subject - "test.txt" yEnc (1/2)],
    ParseSubject returns the header [Test Subject], the file name
    [test.txt], the base file name [test], file 1 of 2 and segment 1 of
    2. *)
Theorem ParseSubject_simple_subject :
  let s := "[1/2] Test Subject - " +:+ inQuotes "test.txt" +:+ " yEnc (1/2)" in
  ParseSubject s = (Subject.mk s "Test Subject" "test.txt" "test" 1 2 1 2, None).
Proof. vm_compute. reflexivity. Qed.

(** C2: ParseSubject returns a nil error and a subject for every input
    string, and when nothing is recognized (no number pair, no [x of y],
    no file name) every field holds its default: the empty string for
    the header and the file names, and 1 for each number. *)
Theorem ParseSubject_never_fails s :
  (exists subject, ParseSubject s = (subject, None)
                   /\ Subject subject = TrimSpace s)
  /\ (numberingRecognized s = false -> nameRecognized s = false ->
      ParseSubject s = (Subject.mk (TrimSpace s) "" "" "" 1 1 1 1, None)).
Proof.
  split.
  - exists (ParseSubject s).1. split; [apply ParseSubject_pair|].
    destruct (kept_eq _ _ (ParseSubject_kept s)) as (-> & _).
    apply numbering_texts.
  - intros Hnum Hname.
    etransitivity; [apply ParseSubject_pair|].
    f_equal. apply ParseSubject_nothing; assumption.
Qed.

(** C3: for every input string in which no numbering is recognized (no
    match of the pair pattern holds a bracketed or a parenthesized pair,
    and the [x of y] pattern does not match), ParseSubject returns
    File = TotalFiles = Segment = TotalSegments = 1. *)
Theorem ParseSubject_no_numbering_defaults s :
  numberingRecognized s = false ->
  numbers (ParseSubject s).1 = (1, 1, 1, 1).
Proof.
  intros Hnum. rewrite ParseSubject_numbers. apply numbering_defaults, Hnum.
Qed.

(** C4: for the subject [[003/120] [03/140] "Release.Name.r03" yEnc],
    ParseSubject returns file 3 of 120, from the first pair, and segment
    3 of 140, from the second pair. *)
Theorem ParseSubject_bracket_shift :
  let s := "[003/120] [03/140] " +:+ inQuotes "Release.Name.r03" +:+ " yEnc" in
  numbers (ParseSubject s).1 = (3, 120, 3, 140).
Proof. vm_compute. reflexivity. Qed.

(** C5: for the subject
    [[04/23] "Release.Name" - "release.name.r00" - yEnc(1/140)],
    ParseSubject returns the header [Release.Name], the file name
    [release.name.r00], the base file name [release.name], file 4 of 23
    and segment 1 of 140: the first pass takes the first quoted string as
    the file name, and the later one, with its archive extension,
    replaces it. *)
Theorem ParseSubject_dual_quote :
  let s := "[04/23] " +:+ inQuotes "Release.Name" +:+ " - "
           +:+ inQuotes "release.name.r00" +:+ " - yEnc(1/140)" in
  Filename (parseName (numbering s).1 (numbering s).2) = "Release.Name"
  /\ ParseSubject s
     = (Subject.mk s "Release.Name" "release.name.r00" "release.name" 4 23 1 140,
        None).
Proof. split; vm_compute; reflexivity. Qed.

(** C6, as the code has it: ParseSubject never returns TotalSegments = 0.
    A pair that is matched with a zero total is treated as not found,
    and the default of segment 1 of 1 applies: so it is for a subject
    that ends in [(1/0)], where the pair is matched. *)
Theorem ParseSubject_zero_total_defaults :
  (forall s, TotalSegments (ParseSubject s).1 <> 0)
  /\ let s := "Test S01E02 ATVP WEB-DL 1080p DDP5.1 Atmos H264-something.mkv (1/0)" in
     existsb (fun m => String.eqb (get m "segments") "(1/0)") (numberMatches s) = true
     /\ Segment (ParseSubject s).1 = 1
     /\ TotalSegments (ParseSubject s).1 = 1.
Proof.
  split.
  - intros s.
    destruct (kept_eq _ _ (ParseSubject_kept s)) as (_ & _ & _ & _ & ->).
    apply numbering_total_segments.
  - repeat split; vm_compute; reflexivity.
Qed.

(** C7, as the code has it: for every input string, the four numbers that
    ParseSubject returns are not negative, and TotalSegments is at least
    1. *)
Theorem ParseSubject_numbers_not_negative s :
  0 <= File (ParseSubject s).1
  /\ 0 <= TotalFiles (ParseSubject s).1
  /\ 0 <= Segment (ParseSubject s).1
  /\ 1 <= TotalSegments (ParseSubject s).1.
Proof.
  destruct (kept_eq _ _ (ParseSubject_kept s)) as (_ & -> & -> & -> & ->).
  destruct (numbering_range s) as ([? _] & [? _] & [? _] & [? _]).
  pose proof (numbering_total_segments s).
  repeat split; try assumption. lia.
Qed.

(** C8: for every input string, if the header that ParseSubject returns
    is empty then so is the base file name; and the pass that fills the
    header in sets it to the base file name whenever the header is empty
    and the base file name is not. *)
Theorem ParseSubject_header_backfill s :
  (Header (ParseSubject s).1 = EmptyString ->
   Basefilename (ParseSubject s).1 = EmptyString)
  /\ forall subject,
       Header subject = EmptyString -> Basefilename subject <> EmptyString ->
       Header (backfillHeader subject) = Basefilename subject.
Proof.
  split.
  - rewrite ParseSubject_fst.
    generalize (refineExtension
                  (dualQuote (parseName (numbering s).1 (numbering s).2)
                     (numbering s).2) (numbering s).2) as subject.
    intros subject.
    assert (Hfill : Header (backfillHeader subject) = EmptyString ->
                    Basefilename (backfillHeader subject) = EmptyString).
    { unfold backfillHeader.
      destruct (Str.isEmpty (Header subject)) eqn:Eh;
        destruct (nonEmpty (Basefilename subject)) eqn:Eb; cbn; intros Hh;
        try assumption; try (apply nonEmpty_false; assumption);
        rewrite Hh in Eh; discriminate Eh. }
    generalize dependent (backfillHeader subject). clear subject.
    intros subject Hfill. unfold leadingFallback.
    repeat case_match; cbn; auto.
    intros Hh. exfalso.
    match goal with E : Str.isEmpty (Header _) = false |- _ =>
      cbn in E; rewrite Hh in E; discriminate E end.
  - intros subject Hh Hb. unfold backfillHeader.
    rewrite Hh. cbn [Str.isEmpty andb].
    destruct (nonEmpty (Basefilename subject)) eqn:Eb; [reflexivity|].
    apply nonEmpty_false in Eb. contradiction.
Qed.

End ParseSubjectFacts.


(** ** Scanning *)

Section ScanFacts.

Context `{Unicode} `{Html}.

Lemma ParseSubject_snd s : (ParseSubject s).2 = None.
Proof. unfold ParseSubject. reflexivity. Qed.

Lemma nameFile_named file : namedAfter file (nameFile file).
Proof.
  unfold namedAfter, nameFile. rewrite ParseSubject_snd.
  split; reflexivity.
Qed.

Lemma namedAfter_ext file f f' :
  NzbFile.Number f' = NzbFile.Number f ->
  NzbFile.Filename f' = NzbFile.Filename f ->
  namedAfter file f -> namedAfter file f'.
Proof. unfold namedAfter. intros -> ->. auto. Qed.

Lemma scanFile_done acc file :
  exists file', done_ (scanFile acc file) = done_ acc ++ [file']
                /\ namedAfter file file'.
Proof.
  unfold scanFile. cbn [done_]. eexists. split; [reflexivity|].
  generalize (nameFile_named file). generalize (nameFile file) as f.
  intros f. apply namedAfter_ext; reflexivity.
Qed.

Lemma scan_done l : forall acc,
  exists out, done_ (foldl scanFile acc l) = done_ acc ++ out
              /\ Forall2 namedAfter l out.
Proof.
  induction l as [|file l IH]; intros acc; simpl.
  - exists []. rewrite app_nil_r. split; [reflexivity|constructor].
  - destruct (IH (scanFile acc file)) as (out & Hout & Hall).
    destruct (scanFile_done acc file) as (file' & Hdone & Hnamed).
    exists (file' :: out). split; [|constructor; assumption].
    rewrite Hout, Hdone, <- app_assoc. reflexivity.
Qed.

(** C9: ScanNzbFile leaves the files in their places, and sets the
    Number of each to the File value parsed from its subject line and its
    Filename to the parsed Filename when that is not empty and to the
    parsed Header otherwise. *)
Theorem ScanNzbFile_number_and_filename nzb :
  Forall2
    (fun file file' =>
       let subject := (ParseSubject (NzbFile.Subject file)).1 in
       NzbFile.Number file' = File subject
       /\ NzbFile.Filename file'
          = (if nonEmpty (Filename subject) then Filename subject
             else Header subject))
    (Nzb.Files nzb) (Nzb.Files (ScanNzbFile nzb)).
Proof.
  unfold ScanNzbFile. cbn [Nzb.Files].
  destruct (scan_done (Nzb.Files nzb) (FileScan 0 0 0 0 [])) as (out & -> & Hall).
  exact Hall.
Qed.

End ScanFacts.

(** ** De-duplication *)

Section UniqueFacts.

Context {A : Type} (key : A -> string).

Lemma collect_spec l : forall st,
  tracks key st -> NoDup (key <$> st.2) ->
  exists ext,
    (foldl (collect key) st l).2 = st.2 ++ ext
    /\ sublist ext l
    /\ NoDup (key <$> (st.2 ++ ext))
    /\ (forall x, x ∈ l -> key x ∈ key <$> (st.2 ++ ext))
    /\ (forall x, x ∈ ext ->
          (key x ∉ key <$> st.2)
          /\ exists i, list_find (fun y => key y = key x) l = Some (i, x)).
Proof.
  induction l as [|y l IH]; intros [m out] Htr Hnd; cbn [fst snd] in *.
  - exists []. rewrite app_nil_r.
    split; [reflexivity|]. split; [constructor|]. split; [exact Hnd|].
    split; intros x Hx; inversion Hx.
  - simpl. unfold collect at 2. cbn [fst snd].
    destruct (m !! key y) as [n|] eqn:Hm.
    + assert (Hin : key y ∈ key <$> out).
      { destruct (decide (key y ∈ key <$> out)) as [|Hn]; [assumption|].
        apply (Htr (key y)) in Hn. cbn in Hn. congruence. }
      destruct (IH (m, out) Htr Hnd) as (ext & Hres & Hsub & Hnd' & Hcov & Hfirst).
      cbn [fst snd] in *.
      exists ext. split; [exact Hres|]. split; [apply sublist_cons, Hsub|].
      split; [exact Hnd'|]. split.
      * intros x Hx. apply elem_of_cons in Hx as [->|Hx]; [|auto].
        rewrite fmap_app. apply elem_of_app. left. exact Hin.
      * intros x Hx. destruct (Hfirst x Hx) as (Hnot & i & Hfind).
        split; [exact Hnot|]. exists (S i).
        cbn [list_find]. rewrite decide_False.
        -- rewrite Hfind. reflexivity.
        -- intros Heq. apply Hnot. rewrite <- Heq. exact Hin.
    + assert (Hnotin : key y ∉ key <$> out) by (apply (Htr (key y)); exact Hm).
      destruct (IH (<[key y := length out]> m, out ++ [y])) as
        (ext & Hres & Hsub & Hnd' & Hcov & Hfirst); cbn [fst snd] in *.
      * intros k. cbn [fst snd]. rewrite fmap_app. cbn.
        rewrite not_elem_of_app, not_elem_of_cons.
        destruct (decide (key y = k)) as [<-|Hne].
        -- rewrite lookup_insert_eq. split; [discriminate|]. intros (_ & [] & _).
           reflexivity.
        -- rewrite lookup_insert_ne by exact Hne. rewrite (Htr k). cbn.
           split; [intros Hk; repeat split; [exact Hk|congruence|apply not_elem_of_nil]
                  |intros (Hk & _); exact Hk].
      * rewrite fmap_app. apply NoDup_app. split; [exact Hnd|]. split.
        -- intros k Hk. cbn. rewrite list_elem_of_singleton. intros ->. auto.
        -- cbn. apply NoDup_singleton.
      * rewrite <- app_assoc in Hres, Hnd', Hcov. cbn [app] in Hres, Hnd', Hcov.
        exists (y :: ext). split; [exact Hres|]. split; [apply sublist_skip, Hsub|].
        split; [exact Hnd'|]. split.
        -- intros x Hx. apply elem_of_cons in Hx as [->|Hx]; [|auto].
           rewrite fmap_app. apply elem_of_app. right. cbn. apply elem_of_cons. auto.
        -- intros x Hx. apply elem_of_cons in Hx as [->|Hx].
           ++ split; [exact Hnotin|]. exists 0%nat.
              cbn [list_find]. rewrite decide_True by reflexivity. reflexivity.
           ++ destruct (Hfirst x Hx) as (Hnot & i & Hfind).
              rewrite fmap_app, not_elem_of_app in Hnot. destruct Hnot as [Hnot Hny].
              split; [exact Hnot|]. exists (S i).
              cbn [list_find]. rewrite decide_False.
              ** rewrite Hfind. reflexivity.
              ** intros Heq. apply Hny. cbn. rewrite Heq. apply elem_of_cons. auto.
Qed.

Lemma unique_first l : FirstOccurrences key l (unique key l).
Proof.
  unfold unique.
  destruct (collect_spec l (∅, [])) as (ext & -> & Hsub & Hnd & Hcov & Hfirst).
  - intros k. cbn. rewrite lookup_empty. split; [intros _; apply not_elem_of_nil|auto].
  - constructor.
  - cbn [snd app] in *. repeat split; auto.
    intros x Hx. apply Hfirst, Hx.
Qed.

End UniqueFacts.

(** C10: after MakeUnique the subjects of the files are pairwise distinct
    and so are, in each file, the IDs of its segments; the files kept are
    the first file of the Nzb for each subject, in their order, and each
    keeps the first of its segments for each ID, in their order. *)
Theorem MakeUnique_first_occurrences nzb :
  NoDup (NzbFile.Subject <$> Nzb.Files (MakeUnique nzb))
  /\ Forall (fun file => NoDup (NzbSegment.ID <$> NzbFile.Segments file))
            (Nzb.Files (MakeUnique nzb))
  /\ exists kept,
       FirstOccurrences NzbFile.Subject (Nzb.Files nzb) kept
       /\ Forall2
            (fun file file' =>
               FirstOccurrences NzbSegment.ID (NzbFile.Segments file)
                                (NzbFile.Segments file')
               /\ file' = NzbFile.setSegments (NzbFile.Segments file') file)
            kept (Nzb.Files (MakeUnique nzb)).
Proof.
  unfold MakeUnique. cbn [Nzb.Files].
  pose proof (unique_first NzbFile.Subject (Nzb.Files nzb)) as Hfiles.
  set (kept := unique NzbFile.Subject (Nzb.Files nzb)) in *.
  split; [|split].
  - rewrite <- list_fmap_compose.
    destruct Hfiles as (_ & Hnd & _). exact Hnd.
  - apply Forall_fmap, Forall_forall. intros file _. cbn.
    apply (unique_first NzbSegment.ID).
  - exists kept. split; [exact Hfiles|].
    apply Forall2_fmap_r, Forall_Forall2_diag, Forall_forall.
    intros file _. cbn. split; [apply unique_first|reflexivity].
Qed.


(** ** The properties at given subjects *)

Lemma ParseSubject_never_fails_witness :
  numberingRecognized "- -" = false
  /\ nameRecognized "- -" = false
  /\ @ParseSubject noTables "- -" = (Subject.mk "- -" "" "" "" 1 1 1 1, None).
Proof.
  split; [vm_compute; reflexivity|]. split; [vm_compute; reflexivity|].
  apply (proj2 (@ParseSubject_never_fails noTables "- -"));
    vm_compute; reflexivity.
Defined.

Lemma ParseSubject_no_numbering_defaults_witness :
  numberingRecognized "hello" = false
  /\ numbers (@ParseSubject noTables "hello").1 = (1, 1, 1, 1).
Proof.
  split; [vm_compute; reflexivity|].
  apply (@ParseSubject_no_numbering_defaults noTables "hello").
  vm_compute. reflexivity.
Defined.

(** C6 as it is stated does not hold: no subject line, with [(1/0)] in
    it or not, makes ParseSubject return TotalSegments = 0. *)
Lemma ParseSubject_zero_total_not_kept :
  ~ (exists (tables : Unicode) (s : string),
       Str.contains "(1/0)" s = true
       /\ TotalSegments (@ParseSubject tables s).1 = 0).
Proof.
  intros (tables & s & _ & Hzero).
  destruct (kept_eq _ _ (@ParseSubject_kept tables s)) as (_ & _ & _ & _ & Hts).
  rewrite Hts in Hzero. exact (numbering_total_segments s Hzero).
Qed.

(** C7 as it is stated does not hold: for the subject [[0/5]] the File
    that ParseSubject returns is 0. *)
Lemma ParseSubject_file_zero :
  ~ (forall tables : Unicode,
       let subject := (@ParseSubject tables "[0/5]").1 in
       1 <= File subject /\ 1 <= TotalFiles subject
       /\ 1 <= Segment subject /\ 1 <= TotalSegments subject).
Proof.
  intros Hall. destruct (Hall noTables) as [Hfile _].
  assert (E : File (@ParseSubject noTables "[0/5]").1 = 0)
    by (vm_compute; reflexivity).
  rewrite E in Hfile. lia.
Qed.

Lemma ParseSubject_header_backfill_witness :
  Header (@ParseSubject noTables "[1/2]").1 = EmptyString
  /\ Basefilename (@ParseSubject noTables "[1/2]").1 = EmptyString.
Proof.
  split; [vm_compute; reflexivity|].
  apply (proj1 (@ParseSubject_header_backfill noTables "[1/2]")).
  vm_compute. reflexivity.
Defined.


(** ** The pairs of a subject line and the numbers *)

Lemma assignNumbers_no_pair m st : pairOf m = None -> assignNumbers m st = st.
Proof.
  unfold pairOf, assignNumbers. intros Hp.
  destruct (nonEmpty (get m "files")); [discriminate|].
  destruct (nonEmpty (get m "segments")); [discriminate|].
  repeat case_match; reflexivity.
Qed.

Lemma assignBackwards_no_pairs ms st :
  omap pairOf ms = [] -> assignBackwards ms st = st.
Proof.
  induction ms as [|m ms IH]; simpl; [reflexivity|]. intros Hp.
  destruct (pairOf m) eqn:E; [discriminate|].
  rewrite (IH Hp). apply assignNumbers_no_pair, E.
Qed.

Lemma assignBackwards_app ms1 ms2 st :
  assignBackwards (ms1 ++ ms2) st = assignBackwards ms1 (assignBackwards ms2 st).
Proof. induction ms1 as [|m ms1 IH]; simpl; congruence. Qed.

(** The matches up to the rightmost pair. *)
Lemma omap_snoc {A B} (f : A -> option B) l ps p :
  omap f l = ps ++ [p] ->
  exists l1 x l2, l = l1 ++ x :: l2 /\ f x = Some p
                  /\ omap f l1 = ps /\ omap f l2 = [].
Proof.
  revert ps. induction l as [|y l IH]; intros ps Hl; simpl in Hl.
  - destruct ps; discriminate.
  - destruct (f y) as [q|] eqn:E.
    + destruct ps as [|q' ps]; simpl in Hl.
      * injection Hl as -> Hl. exists [], y, l. simpl. auto.
      * injection Hl as -> Hl.
        destruct (IH ps Hl) as (l1 & x & l2 & -> & Hx & H1 & H2).
        exists (y :: l1), x, l2.
        split; [reflexivity|]. split; [exact Hx|]. split; [|exact H2].
        simpl. rewrite E. simpl. f_equal. exact H1.
    + destruct (IH ps Hl) as (l1 & x & l2 & -> & Hx & H1 & H2).
      exists (y :: l1), x, l2.
      split; [reflexivity|]. split; [exact Hx|]. split; [|exact H2].
      simpl. rewrite E. exact H1.
Qed.

Lemma assignBackwards_snoc ms ps p st :
  omap pairOf ms = ps ++ [p] ->
  exists ms1 m, pairOf m = Some p /\ omap pairOf ms1 = ps
                /\ assignBackwards ms st = assignBackwards ms1 (assignNumbers m st).
Proof.
  intros Hp. destruct (omap_snoc _ _ _ _ Hp) as (l1 & m & l2 & -> & Hm & H1 & H2).
  exists l1, m. split; [exact Hm|]. split; [exact H1|].
  rewrite assignBackwards_app. simpl. rewrite (assignBackwards_no_pairs l2 st H2).
  reflexivity.
Qed.

(** what one round of the loop does with a pair *)
Lemma assignNumbers_pair m st sh x y :
  pairOf m = Some (sh, x, y) ->
  assignNumbers m st =
    let subject := st.1 in
    if (File subject =? 0) && (Segment subject =? 0) then
      (match sh with
       | Bracketed => setFiles x y subject
       | Parenthesized => setSegments x y subject
       end, true)
    else if (TotalFiles subject =? 0) || (TotalSegments subject =? 0) then
      (match sh with
       | Bracketed =>
           let subject :=
             if negb (TotalFiles subject =? 0)
             then setSegments (File subject) (TotalFiles subject) subject
             else subject in
           if TotalSegments subject =? 0 then setSegments x y subject
           else setFiles x y subject
       | Parenthesized =>
           if negb (TotalSegments subject =? 0) then setFiles x y subject
           else setSegments x y subject
       end, true)
    else st.
Proof.
  unfold pairOf, assignNumbers. cbv zeta.
  destruct (nonEmpty (get m "files")).
  - intros [= <- <- <-]. reflexivity.
  - destruct (nonEmpty (get m "segments")); [|discriminate].
    intros [= <- <- <-]. reflexivity.
Qed.

(** Once both pairs are there with totals that are not zero, the matches
    further to the left change nothing. *)
Lemma assignBackwards_full ms st :
  (File st.1 <> 0 \/ Segment st.1 <> 0) ->
  TotalFiles st.1 <> 0 -> TotalSegments st.1 <> 0 ->
  assignBackwards ms st = st.
Proof.
  intros H1 H2 H3. induction ms as [|m ms IH]; simpl; [reflexivity|].
  rewrite IH. unfold assignNumbers.
  assert (E1 : (File st.1 =? 0) && (Segment st.1 =? 0) = false).
  { apply andb_false_iff. destruct H1; [left|right]; apply Z.eqb_neq; assumption. }
  rewrite E1. apply Z.eqb_neq in H2, H3. rewrite H2, H3. reflexivity.
Qed.

Lemma numberMatches_some s :
  pairs s <> [] ->
  findAllNamedMatches numbersRE (TrimSpace s) = Some (numberMatches s).
Proof.
  unfold pairs, numberMatches.
  destruct (findAllNamedMatches numbersRE (TrimSpace s)); [reflexivity|].
  intros Hp. contradiction Hp. reflexivity.
Qed.

(** [numbering] when the search for pairs ends with totals that are not
    zero: nothing is defaulted. *)
Lemma numbering_found s st :
  pairs s <> [] ->
  assignBackwards (numberMatches s) (newSubject s, false) = st ->
  TotalFiles st.1 <> 0 -> TotalSegments st.1 <> 0 ->
  numbers (numbering s).1 = numbers st.1.
Proof.
  intros Hp Hst Hf Hs. unfold numbering, parseNumbers.
  cbn [Subject newSubject]. rewrite (numberMatches_some s Hp). cbn [fst snd].
  rewrite Hst. unfold defaultSegments, parseFilesOf.
  apply Z.eqb_neq in Hf, Hs. rewrite Hs. rewrite Hf. reflexivity.
Qed.

Section Pairs.

Context `{Unicode}.

(** X1: when the two rightmost pairs of a subject line hold no zero, the
    pairs to their left are ignored; the left one gives the file numbers
    and the right one the segment numbers, unless the left one is in
    round brackets and the right one is not: then each keeps the role of
    its shape. *)
Theorem ParseSubject_two_rightmost_pairs s ps sh1 a b sh2 c d :
  pairs s = ps ++ [(sh1, a, b); (sh2, c, d)] ->
  a <> 0 -> b <> 0 -> c <> 0 -> d <> 0 ->
  numbers (ParseSubject s).1 =
    match sh1, sh2 with
    | Parenthesized, Bracketed => (c, d, a, b)
    | _, _ => (a, b, c, d)
    end.
Proof.
  intros Hp Ha Hb Hc Hd. rewrite ParseSubject_numbers.
  assert (Hne : pairs s <> []) by (rewrite Hp; destruct ps; discriminate).
  change (ps ++ [(sh1, a, b); (sh2, c, d)])
    with (ps ++ [(sh1, a, b)] ++ [(sh2, c, d)]) in Hp.
  rewrite app_assoc in Hp. unfold pairs in Hp.
  destruct (assignBackwards_snoc _ _ _ (newSubject s, false) Hp)
    as (ms1 & m2 & Hm2 & Hps & E2).
  destruct (assignBackwards_snoc _ _ _ (assignNumbers m2 (newSubject s, false)) Hps)
    as (ms0 & m1 & Hm1 & _ & E1).
  rewrite E1 in E2. clear E1 Hps Hp.
  rewrite (assignNumbers_pair _ _ _ _ _ Hm2) in E2.
  cbn [fst newSubject File Segment Z.eqb andb] in E2.
  rewrite (assignNumbers_pair _ _ _ _ _ Hm1) in E2.
  apply Z.eqb_neq in Ha, Hb, Hc, Hd.
  destruct sh1, sh2;
    cbn [fst File Segment TotalFiles TotalSegments setFiles setSegments
         newSubject Z.eqb andb orb negb] in E2;
    rewrite ?Ha, ?Hb, ?Hc, ?Hd in E2;
    cbn [fst File Segment TotalFiles TotalSegments setFiles setSegments
         newSubject Z.eqb andb orb negb] in E2;
    rewrite ?Ha, ?Hb, ?Hc, ?Hd in E2;
    cbn [fst File Segment TotalFiles TotalSegments setFiles setSegments
         newSubject Z.eqb andb orb negb] in E2;
    apply Z.eqb_neq in Ha, Hb, Hc, Hd;
    rewrite (assignBackwards_full ms0) in E2
      by (cbn [fst File Segment TotalFiles TotalSegments setFiles setSegments
               newSubject]; auto);
    rewrite (numbering_found s _ Hne E2)
      by (cbn [fst File Segment TotalFiles TotalSegments setFiles setSegments
               newSubject]; assumption);
    reflexivity.
Qed.

(** X2: a subject line with one pair, whose total is not zero.  In square
    or angle brackets the pair gives the file numbers and the segment
    numbers are 1 of 1; in round brackets it gives the segment numbers,
    and the file numbers are 1 of 1 unless [x of y] is found. *)
Theorem ParseSubject_single_pair s sh x y :
  pairs s = [(sh, x, y)] -> y <> 0 ->
  match sh with
  | Bracketed => numbers (ParseSubject s).1 = (x, y, 1, 1)
  | Parenthesized =>
      Segment (ParseSubject s).1 = x /\ TotalSegments (ParseSubject s).1 = y
      /\ (ofRecognized s = false ->
          File (ParseSubject s).1 = 1 /\ TotalFiles (ParseSubject s).1 = 1)
  end.
Proof.
  intros Hp Hy.
  assert (Hne : pairs s <> []) by (rewrite Hp; discriminate).
  unfold pairs in Hp.
  destruct (assignBackwards_snoc _ [] _ (newSubject s, false) Hp)
    as (ms1 & m & Hm & Hps & E).
  rewrite (assignBackwards_no_pairs ms1 _ Hps) in E.
  rewrite (assignNumbers_pair _ _ _ _ _ Hm) in E.
  cbn [fst newSubject File Segment Z.eqb andb] in E.
  pose proof (numberMatches_some s Hne) as Hsome.
  apply Z.eqb_neq in Hy.
  destruct sh.
  - rewrite ParseSubject_numbers.
    unfold numbering, parseNumbers. cbn [Subject newSubject].
    rewrite Hsome. cbn [fst snd]. cbn [newSubject] in E. rewrite E.
    unfold defaultSegments, parseFilesOf.
    cbn [fst TotalSegments TotalFiles setFiles setSegments newSubject Z.eqb].
    rewrite Hy. reflexivity.
  - destruct (kept_eq _ _ (ParseSubject_kept s)) as (_ & -> & -> & -> & ->).
    unfold ofRecognized.
    unfold numbering. generalize (parseNumbers (newSubject s)).2 as remainder.
    intros remainder.
    unfold parseNumbers. cbn [Subject newSubject].
    rewrite Hsome. cbn [fst snd]. cbn [newSubject] in E. rewrite E.
    unfold defaultSegments, parseFilesOf.
    cbn [fst TotalSegments TotalFiles setFiles setSegments newSubject Z.eqb].
    rewrite Hy. cbn [TotalFiles Z.eqb].
    destruct (findAllNamedMatches ofRE remainder) as [matches|].
    + destruct (nonEmpty (get (first matches) "files"));
        cbn [fst File TotalFiles Segment TotalSegments setFiles];
        repeat split; try reflexivity; discriminate.
    + cbn [fst File TotalFiles Segment TotalSegments setFiles].
      repeat split; reflexivity.
Qed.

(** X3: the TotalFiles that ParseSubject returns is zero only when the
    [x of y] pattern has matched: a pair with a zero total leaves the
    default of 1 of 1 or the x of y numbers, never a zero. *)
Theorem ParseSubject_total_files_zero s :
  TotalFiles (ParseSubject s).1 = 0 -> ofRecognized s = true.
Proof.
  destruct (kept_eq _ _ (ParseSubject_kept s)) as (_ & _ & -> & _ & _).
  unfold ofRecognized, numbering.
  generalize (parseNumbers (newSubject s)).2 as remainder.
  generalize (defaultSegments (parseNumbers (newSubject s)).1) as subject.
  intros subject remainder. unfold parseFilesOf.
  destruct (TotalFiles subject =? 0) eqn:E.
  - destruct (findAllNamedMatches ofRE remainder) as [matches|].
    + destruct (nonEmpty (get (first matches) "files")); [reflexivity|].
      cbn. discriminate.
    + cbn. discriminate.
  - cbn [fst]. apply Z.eqb_neq in E. contradiction.
Qed.

End Pairs.

(** ** The rules for pairs at given subjects *)

Lemma ParseSubject_two_rightmost_pairs_witness :
  let s := "(1/2) name [3/4]" in
  pairs s = [] ++ [(Parenthesized, 1, 2); (Bracketed, 3, 4)]
  /\ numbers (@ParseSubject noTables s).1 = (3, 4, 1, 2).
Proof.
  split; [vm_compute; reflexivity|].
  apply (@ParseSubject_two_rightmost_pairs noTables "(1/2) name [3/4]" []
           Parenthesized 1 2 Bracketed 3 4);
    [vm_compute; reflexivity | lia..].
Defined.

Lemma ParseSubject_single_pair_witness :
  let s := "name.bin <7/9>" in
  pairs s = [(Bracketed, 7, 9)]
  /\ numbers (@ParseSubject noTables s).1 = (7, 9, 1, 1).
Proof.
  split; [vm_compute; reflexivity|].
  apply (@ParseSubject_single_pair noTables "name.bin <7/9>" Bracketed 7 9);
    [vm_compute; reflexivity | lia].
Defined.

Lemma ParseSubject_total_files_zero_witness :
  TotalFiles (@ParseSubject noTables "name file 1 of 0").1 = 0
  /\ ofRecognized "name file 1 of 0" = true.
Proof.
  split; [vm_compute; reflexivity|].
  apply (@ParseSubject_total_files_zero noTables "name file 1 of 0").
  vm_compute. reflexivity.
Defined.


(** ** Trimming *)

Lemma rev_onto_append s acc : Str.rev_onto s acc = Str.rev s +:+ acc.
Proof.
  unfold Str.rev. revert acc.
  induction s as [|a s IH]; intros acc; simpl; [reflexivity|].
  rewrite (IH (String a acc)), (IH (String a EmptyString)).
  rewrite append_assoc. reflexivity.
Qed.

Lemma rev_cons a s : Str.rev (String a s) = Str.rev s +:+ String a EmptyString.
Proof. unfold Str.rev at 1. simpl. apply rev_onto_append. Qed.

Lemma rev_append (a b : string) : Str.rev (a +:+ b) = Str.rev b +:+ Str.rev a.
Proof.
  induction a as [|c a IH].
  - rewrite append_nil_l, append_nil_r. reflexivity.
  - rewrite append_cons, !rev_cons, IH, append_assoc. reflexivity.
Qed.

Lemma rev_involutive s : Str.rev (Str.rev s) = s.
Proof.
  induction s as [|a s IH]; [reflexivity|].
  rewrite rev_cons, rev_append, IH. reflexivity.
Qed.

(** *** [TrimSpace] *)

Lemma string_length_ind (P : string -> Prop) :
  (forall s, (forall t, (String.length t < String.length s)%nat -> P t) -> P s) ->
  forall s, P s.
Proof.
  intros Hstep s. remember (String.length s) as n eqn:Hn. revert s Hn.
  induction n as [n IH] using lt_wf_ind. intros s ->.
  apply Hstep. intros t Ht. exact (IH _ Ht t eq_refl).
Qed.

Lemma dropSpace_suffix b s : exists p, s = p +:+ dropSpace b s.
Proof.
  induction s as [s IH] using string_length_ind.
  destruct s as [|a s1]; [exists EmptyString; reflexivity|].
  cbn [dropSpace]. destruct (asciiSpace a).
  { destruct (IH s1) as [p Hp]; [simpl; lia|].
    exists (String a p). rewrite append_cons, <- Hp. reflexivity. }
  destruct s1 as [|c s2]; [exists EmptyString; reflexivity|].
  destruct (if b then space2 c a else space2 a c).
  { destruct (IH s2) as [p Hp]; [simpl; lia|].
    exists (String a (String c p)). rewrite !append_cons, <- Hp. reflexivity. }
  destruct s2 as [|d s3]; [exists EmptyString; reflexivity|].
  destruct (if b then space3 d c a else space3 a c d).
  { destruct (IH s3) as [p Hp]; [simpl; lia|].
    exists (String a (String c (String d p))).
    rewrite !append_cons, <- Hp. reflexivity. }
  exists EmptyString. reflexivity.
Qed.

Lemma dropSpace_clean b s : startsWithSpace b (dropSpace b s) = false.
Proof.
  induction s as [s IH] using string_length_ind.
  destruct s as [|a s1]; [reflexivity|].
  cbn [dropSpace]. destruct (asciiSpace a) eqn:Ea.
  { apply IH. simpl. lia. }
  destruct s1 as [|c s2]; [simpl; rewrite Ea; reflexivity|].
  destruct (if b then space2 c a else space2 a c) eqn:E2.
  { apply IH. simpl. lia. }
  destruct s2 as [|d s3]; [simpl; rewrite Ea, E2; reflexivity|].
  destruct (if b then space3 d c a else space3 a c d) eqn:E3.
  { apply IH. simpl. lia. }
  simpl. rewrite Ea, E2, E3. reflexivity.
Qed.

Lemma dropSpace_id b s : startsWithSpace b s = false -> dropSpace b s = s.
Proof.
  destruct s as [|a [|c [|d s3]]]; simpl; try reflexivity.
  - rewrite orb_false_r. intros ->. reflexivity.
  - intros Hs. apply orb_false_iff in Hs as [-> Hs].
    rewrite orb_false_r in Hs. rewrite Hs. reflexivity.
  - intros Hs. apply orb_false_iff in Hs as [-> Hs].
    apply orb_false_iff in Hs as [-> ->]. reflexivity.
Qed.

(** a prefix of a string that starts with no white space starts with none *)
Lemma startsWithSpace_prefix (x y : string) :
  startsWithSpace false (x +:+ y) = false -> startsWithSpace false x = false.
Proof.
  destruct x as [|a [|c [|d x3]]]; rewrite ?append_cons, ?append_nil_l.
  - reflexivity.
  - simpl. intros Hs. apply orb_false_iff in Hs as [-> _]. reflexivity.
  - simpl. intros Hs. apply orb_false_iff in Hs as [-> Hs].
    destruct y; [exact Hs|].
    apply orb_false_iff in Hs as [-> _]. reflexivity.
  - simpl. auto.
Qed.

Lemma TrimSpace_idempotent s : TrimSpace (TrimSpace s) = TrimSpace s.
Proof.
  unfold TrimSpace.
  pose proof (dropSpace_clean false s) as Hleft.
  set (t := dropSpace false s) in *.
  pose proof (dropSpace_clean true (Str.rev t)) as Hright.
  destruct (dropSpace_suffix true (Str.rev t)) as [p Hp].
  set (u := dropSpace true (Str.rev t)) in *.
  assert (Ht : t = Str.rev u +:+ Str.rev p).
  { rewrite <- rev_append, <- Hp, rev_involutive. reflexivity. }
  rewrite (dropSpace_id false (Str.rev u)).
  - rewrite rev_involutive, (dropSpace_id true u Hright). reflexivity.
  - apply (startsWithSpace_prefix _ (Str.rev p)). rewrite <- Ht. exact Hleft.
Qed.

(** *** [Trim] *)

Lemma dropCutset_clean cutset s : startsClean cutset (dropCutset cutset s) = true.
Proof.
  induction s as [|a s IH]; simpl; [reflexivity|].
  destruct (Str.contains (String a EmptyString) cutset) eqn:E; [exact IH|].
  simpl. rewrite E. reflexivity.
Qed.

Lemma dropCutset_suffix cutset s : exists p, s = p +:+ dropCutset cutset s.
Proof.
  induction s as [|a s [p IH]]; simpl; [exists EmptyString; reflexivity|].
  destruct (Str.contains (String a EmptyString) cutset).
  - exists (String a p). rewrite append_cons, <- IH. reflexivity.
  - exists EmptyString. reflexivity.
Qed.

Lemma Trim_edges s cutset : edgesClean cutset (Trim s cutset) = true.
Proof.
  unfold Trim, edgesClean.
  pose proof (dropCutset_clean cutset (Str.rev s)) as Ht.
  set (t := dropCutset cutset (Str.rev s)) in *.
  rewrite dropCutset_clean. cbn [andb].
  destruct (dropCutset_suffix cutset (Str.rev t)) as [p Hp].
  set (r := dropCutset cutset (Str.rev t)) in *.
  assert (Ht' : t = Str.rev r +:+ Str.rev p).
  { rewrite <- rev_append, <- Hp, rev_involutive. reflexivity. }
  destruct (Str.rev r) as [|a x]; [reflexivity|].
  rewrite Ht', append_cons in Ht. exact Ht.
Qed.

(** ** The header and the base file name are trimmed *)

Section CleanNames.

Context `{Unicode}.

Lemma parseName_clean subject remainder :
  cleanNames subject -> cleanNames (parseName subject remainder).
Proof.
  intros [Hh Hb]. unfold parseName, cleanNames.
  repeat case_match; cbn [Header Basefilename setHeader setFilename setBasefilename];
    rewrite ?Trim_edges; auto.
Qed.

Lemma preferWithExt_clean later : forall subject quoted0,
  cleanNames subject -> cleanNames (preferWithExt subject quoted0 later).
Proof.
  induction later as [|qi later IH]; intros subject quoted0 [Hh Hb];
    cbn [preferWithExt]; [split; assumption|].
  destruct (FindStringSubmatch fileWithExtRE _) as [m|]; [|apply IH; split; assumption].
  unfold cleanNames.
  repeat case_match; cbn [Header Basefilename setHeader setFilename setBasefilename];
    rewrite ?Trim_edges; auto.
Qed.

Lemma dualQuote_clean subject remainder :
  cleanNames subject -> cleanNames (dualQuote subject remainder).
Proof.
  intros Hc. unfold dualQuote. repeat case_match; try assumption.
  apply preferWithExt_clean, Hc.
Qed.

Lemma pickCandidate_clean later : forall subject quoted0,
  cleanNames subject -> cleanNames (pickCandidate subject quoted0 later).
Proof.
  induction later as [|qi later IH]; intros subject quoted0 [Hh Hb];
    cbn [pickCandidate]; [split; assumption|].
  destruct (FindStringSubmatch candidateRE _) as [m|]; [|apply IH; split; assumption].
  unfold cleanNames.
  repeat case_match; cbn [Header Basefilename setHeader setFilename setBasefilename];
    rewrite ?Trim_edges; auto.
Qed.

Lemma refineExtension_clean subject remainder :
  cleanNames subject -> cleanNames (refineExtension subject remainder).
Proof.
  intros Hc. unfold refineExtension.
  repeat case_match; try assumption; apply pickCandidate_clean, Hc.
Qed.

Lemma backfillHeader_clean subject :
  cleanNames subject -> cleanNames (backfillHeader subject).
Proof.
  intros [Hh Hb]. unfold backfillHeader, cleanNames.
  case_match; cbn [Header Basefilename setHeader]; auto.
Qed.

Lemma leadingFallback_clean subject :
  cleanNames subject -> cleanNames (leadingFallback subject).
Proof.
  intros [Hh Hb]. unfold leadingFallback, cleanNames.
  repeat case_match; cbn [Header Basefilename setHeader setFilename setBasefilename];
    rewrite ?Trim_edges; auto.
Qed.

Lemma ParseSubject_subject s : Subject (ParseSubject s).1 = TrimSpace s.
Proof.
  destruct (kept_eq _ _ (ParseSubject_kept s)) as (-> & _).
  apply numbering_texts.
Qed.

(** X4: in the subject that ParseSubject returns, neither the Header nor
    the Basefilename begins or ends with a space or a hyphen. *)
Theorem ParseSubject_names_trimmed s :
  edgesClean " -" (Header (ParseSubject s).1) = true
  /\ edgesClean " -" (Basefilename (ParseSubject s).1) = true.
Proof.
  rewrite ParseSubject_fst.
  apply leadingFallback_clean, backfillHeader_clean, refineExtension_clean,
    dualQuote_clean, parseName_clean.
  destruct (numbering_texts s) as (_ & Hh & _ & Hb).
  unfold cleanNames. rewrite Hh, Hb. split; reflexivity.
Qed.

(** X5: white space around a subject line does not change what
    ParseSubject returns, and parsing the Subject field of a result again
    gives the same result. *)
Theorem ParseSubject_trimmed_input s :
  ParseSubject (TrimSpace s) = ParseSubject s
  /\ ParseSubject (Subject (ParseSubject s).1) = ParseSubject s.
Proof.
  assert (Htrim : ParseSubject (TrimSpace s) = ParseSubject s).
  { assert (Hnum : numbering (TrimSpace s) = numbering s).
    { unfold numbering, newSubject. rewrite TrimSpace_idempotent. reflexivity. }
    unfold ParseSubject. rewrite Hnum. reflexivity. }
  split; [exact Htrim|].
  rewrite ParseSubject_subject. exact Htrim.
Qed.

End CleanNames.


(** ** The totals of [ScanNzbFile] *)

Lemma wrap64_int64 z : int64 (wrap64 z).
Proof.
  unfold int64, wrap64.
  pose proof (Z.mod_pos_bound (z + 2 ^ 63) (2 ^ 64) ltac:(lia)). lia.
Qed.

Lemma wrap64_id z : int64 z -> wrap64 z = z.
Proof. unfold int64, wrap64. intros Hz. rewrite Z.mod_small; lia. Qed.

Lemma wrap64_add_l a b : wrap64 (wrap64 a + b) = wrap64 (a + b).
Proof.
  unfold wrap64. f_equal.
  replace ((a + 2 ^ 63) mod 2 ^ 64 - 2 ^ 63 + b + 2 ^ 63)
    with ((a + 2 ^ 63) mod 2 ^ 64 + b) by lia.
  rewrite Zplus_mod_idemp_l. f_equal. lia.
Qed.

Lemma greatest_cons start n l m :
  greatest (if n >? start then n else start) l m -> greatest start (n :: l) m.
Proof.
  unfold greatest. intros (Hs & Hall & Hm).
  destruct (Z.gtb_spec n start) as [Hgt|Hle].
  - split; [lia|]. split; [constructor; [lia|exact Hall]|].
    right. destruct Hm as [->|Hm]; [left|right; exact Hm].
  - split; [lia|]. split; [constructor; [lia|exact Hall]|].
    destruct Hm as [->|Hm]; [left; reflexivity|right; right; exact Hm].
Qed.

Section ScanTotals.

Context `{Unicode} `{Html}.

(** the loop over the segments of a file *)
Lemma scanSegments_spec segs : forall acc,
  let r := foldl scanSegment acc segs in
  scanned r
  = scanned acc
    ++ ((fun seg => NzbSegment.setID (UnescapeString (NzbSegment.ID seg)) seg) <$> segs)
  /\ wrap64 (segTotalBytes r)
     = wrap64 (segTotalBytes acc + sumZ (NzbSegment.Bytes <$> segs))
  /\ wrap64 (totalFileBytes r)
     = wrap64 (totalFileBytes acc + sumZ (NzbSegment.Bytes <$> segs))
  /\ (int64 (segTotalBytes acc) -> int64 (segTotalBytes r))
  /\ (int64 (totalFileBytes acc) -> int64 (totalFileBytes r))
  /\ greatest (totalFileSegments acc) (NzbSegment.Number <$> segs)
              (totalFileSegments r).
Proof.
  induction segs as [|seg segs IH]; intros acc; cbn [foldl]; cbn zeta.
  - rewrite app_nil_r. cbn [fmap list_fmap sumZ foldr]. rewrite !Z.add_0_r.
    split; [reflexivity|]. split; [reflexivity|]. split; [reflexivity|].
    split; [auto|]. split; [auto|].
    unfold greatest. split; [lia|]. split; [constructor|left; reflexivity].
  - destruct (IH (scanSegment acc seg)) as (Hsc & Hb1 & Hb2 & Hr1 & Hr2 & Hmax).
    cbn [scanSegment scanned segTotalBytes totalFileSegments totalFileBytes] in *.
    split; [rewrite Hsc, <- app_assoc; reflexivity|].
    cbn [fmap list_fmap sumZ foldr]. fold (sumZ (NzbSegment.Bytes <$> segs)).
    split; [rewrite Hb1, wrap64_add_l; f_equal; lia|].
    split; [rewrite Hb2, wrap64_add_l; f_equal; lia|].
    split; [intros _; apply Hr1, wrap64_int64|].
    split; [intros _; apply Hr2, wrap64_int64|].
    apply greatest_cons, Hmax.
Qed.

(** one round of the loop over the files *)
Lemma scanFile_spec acc file :
  let r := scanFile acc file in
  exists file',
    done_ r = done_ acc ++ [file']
    /\ scannedFrom file file'
    /\ segments r
       = wrap64 (segments acc + Z.of_nat (length (NzbFile.Segments file)))
    /\ totalSegments r = wrap64 (totalSegments acc + NzbFile.TotalSegments file')
    /\ wrap64 (totalBytes r) = wrap64 (totalBytes acc + segmentBytes file)
    /\ (int64 (totalBytes acc) -> int64 (totalBytes r))
    /\ totalFiles r
       = (if TotalFiles (ParseSubject (NzbFile.Subject file)).1 >? totalFiles acc
          then TotalFiles (ParseSubject (NzbFile.Subject file)).1
          else totalFiles acc).
Proof.
  unfold scanFile, nameFile, scannedFrom, segmentBytes.
  pose proof (ParseSubject_snd (NzbFile.Subject file)) as Hnil.
  destruct (ParseSubject (NzbFile.Subject file)) as [subject e].
  cbn [fst snd] in *. subst e. cbn zeta. cbn [fst snd].
  destruct (scanSegments_spec (NzbFile.Segments file)
              (SegmentScan [] (totalBytes acc) (TotalSegments subject) 0))
    as (Hsc & Hb1 & Hb2 & Hr1 & Hr2 & Hmax).
  cbn [scanned segTotalBytes totalFileSegments totalFileBytes app] in *.
  set (segs := foldl scanSegment _ (NzbFile.Segments file)) in *.
  eexists. split; [reflexivity|].
  cbn [segments totalSegments totalBytes totalFiles done_
       NzbFile.Groups NzbFile.Poster NzbFile.Date NzbFile.Subject
       NzbFile.FileHash NzbFile.Basefilename NzbFile.Segments NzbFile.Bytes
       NzbFile.TotalSegments NzbFile.setTotals NzbFile.setSegments
       NzbFile.setFilename NzbFile.setNumber].
  split; [|split; [reflexivity|split; [reflexivity|split; [exact Hb1|
            split; [exact Hr1|reflexivity]]]]].
  do 6 (split; [reflexivity|]). split; [exact Hsc|]. split; [|exact Hmax].
  rewrite <- (wrap64_id (totalFileBytes segs)) by (apply Hr2; unfold int64; lia).
  rewrite Hb2. f_equal.
Qed.

(** the loop over the files *)
Lemma scanFiles_spec files : forall acc,
  int64 (segments acc) -> int64 (totalSegments acc) -> int64 (totalBytes acc) ->
  let r := foldl scanFile acc files in
  exists out,
    done_ r = done_ acc ++ out
    /\ Forall2 scannedFrom files out
    /\ segments r
       = wrap64 (segments acc
                 + sumZ ((fun file => Z.of_nat (length (NzbFile.Segments file)))
                           <$> files))
    /\ totalSegments r
       = wrap64 (totalSegments acc + sumZ (NzbFile.TotalSegments <$> out))
    /\ totalBytes r = wrap64 (totalBytes acc + sumZ (segmentBytes <$> files))
    /\ greatest (totalFiles acc)
                ((fun file => TotalFiles (ParseSubject (NzbFile.Subject file)).1)
                   <$> files)
                (totalFiles r).
Proof.
  induction files as [|file files IH]; intros acc H1 H2 H3; cbn [foldl]; cbn zeta.
  - exists []. rewrite app_nil_r. cbn [fmap list_fmap sumZ foldr].
    rewrite !Z.add_0_r, !wrap64_id by assumption.
    split; [reflexivity|]. split; [constructor|].
    split; [reflexivity|]. split; [reflexivity|]. split; [reflexivity|].
    unfold greatest. split; [lia|]. split; [constructor|left; reflexivity].
  - destruct (scanFile_spec acc file)
      as (file' & Hdone & Hfile & Hseg & Htot & Hbytes & Hrange & Hfiles).
    cbn zeta in *.
    destruct (IH (scanFile acc file))
      as (out & Hdone' & Hall & Hseg' & Htot' & Hbytes' & Hfiles').
    { rewrite Hseg. apply wrap64_int64. }
    { rewrite Htot. apply wrap64_int64. }
    { apply Hrange, H3. }
    exists (file' :: out).
    split; [rewrite Hdone', Hdone, <- app_assoc; reflexivity|].
    split; [constructor; assumption|].
    cbn [fmap list_fmap sumZ foldr].
    split; [rewrite Hseg', Hseg, wrap64_add_l; f_equal; unfold sumZ; lia|].
    split; [rewrite Htot', Htot, wrap64_add_l; f_equal; unfold sumZ; lia|].
    split.
    + rewrite Hbytes'.
      rewrite <- (wrap64_add_l (totalBytes (scanFile acc file))), Hbytes.
      rewrite wrap64_add_l. f_equal. unfold sumZ. lia.
    + apply greatest_cons. rewrite <- Hfiles. exact Hfiles'.
Qed.

Lemma ParseSubject_total_segments_pos s : 1 <= TotalSegments (ParseSubject s).1.
Proof.
  destruct (kept_eq _ _ (ParseSubject_kept s)) as (_ & _ & _ & _ & ->).
  destruct (numbering_range s) as (_ & _ & _ & [Hts _]).
  pose proof (numbering_total_segments s). lia.
Qed.

Lemma ScanNzbFile_files nzb :
  exists out,
    Nzb.Files (ScanNzbFile nzb) = out
    /\ Forall2 scannedFrom (Nzb.Files nzb) out
    /\ Nzb.Segments (ScanNzbFile nzb)
       = wrap64 (sumZ ((fun file => Z.of_nat (length (NzbFile.Segments file)))
                         <$> Nzb.Files nzb))
    /\ Nzb.TotalSegments (ScanNzbFile nzb)
       = wrap64 (sumZ (NzbFile.TotalSegments <$> out))
    /\ Nzb.Bytes (ScanNzbFile nzb)
       = wrap64 (sumZ (segmentBytes <$> Nzb.Files nzb))
    /\ greatest 0
         ((fun file => TotalFiles (ParseSubject (NzbFile.Subject file)).1)
            <$> Nzb.Files nzb)
         (totalFiles (foldl scanFile (FileScan 0 0 0 0 []) (Nzb.Files nzb))).
Proof.
  unfold ScanNzbFile.
  destruct (scanFiles_spec (Nzb.Files nzb) (FileScan 0 0 0 0 []))
    as (out & Hdone & Hall & Hseg & Htot & Hbytes & Hfiles);
    try (cbn; unfold int64; lia).
  cbn zeta in *. cbn [segments totalSegments totalBytes totalFiles done_ app] in *.
  exists out.
  cbn [Nzb.Files Nzb.Segments Nzb.TotalSegments Nzb.Bytes].
  rewrite Hdone, Hseg, Htot, Hbytes.
  repeat (split; [first [reflexivity|assumption]|]). exact Hfiles.
Qed.

(** X6: ScanNzbFile keeps the comment, the meta data and, for each file in
    its place, what was read from the nzb file (groups, poster, date,
    subject, file hash) and the Basefilename, which it never sets; the
    segments keep their order, Bytes and Number, and their IDs are
    unescaped. *)
Theorem ScanNzbFile_keeps nzb :
  Nzb.Comment (ScanNzbFile nzb) = Nzb.Comment nzb
  /\ Nzb.Meta (ScanNzbFile nzb) = Nzb.Meta nzb
  /\ Forall2
       (fun file file' =>
          NzbFile.Groups file' = NzbFile.Groups file
          /\ NzbFile.Poster file' = NzbFile.Poster file
          /\ NzbFile.Date file' = NzbFile.Date file
          /\ NzbFile.Subject file' = NzbFile.Subject file
          /\ NzbFile.FileHash file' = NzbFile.FileHash file
          /\ NzbFile.Basefilename file' = NzbFile.Basefilename file
          /\ Forall2
               (fun seg seg' =>
                  NzbSegment.Bytes seg' = NzbSegment.Bytes seg
                  /\ NzbSegment.Number seg' = NzbSegment.Number seg
                  /\ NzbSegment.ID seg' = UnescapeString (NzbSegment.ID seg))
               (NzbFile.Segments file) (NzbFile.Segments file'))
       (Nzb.Files nzb) (Nzb.Files (ScanNzbFile nzb)).
Proof.
  split; [reflexivity|]. split; [reflexivity|].
  destruct (ScanNzbFile_files nzb) as (out & -> & Hall & _).
  eapply Forall2_impl; [exact Hall|].
  intros file file' (Hg & Hp & Hd & Hs & Hh & Hb & Hsegs & _).
  repeat (split; [assumption|]).
  rewrite Hsegs. apply Forall2_fmap_r, Forall_Forall2_diag, Forall_forall.
  intros seg _. repeat split.
Qed.

(** X7: after ScanNzbFile the Bytes of each file are the sum of the Bytes
    of its segments, as Go's int64 adds them up, and its TotalSegments is
    the greatest of the total parsed from its subject and the Number of
    each of its segments; it is at least 1. *)
Theorem ScanNzbFile_file_totals nzb :
  Forall2
    (fun file file' =>
       NzbFile.Bytes file'
       = wrap64 (sumZ (NzbSegment.Bytes <$> NzbFile.Segments file))
       /\ greatest (TotalSegments (ParseSubject (NzbFile.Subject file)).1)
                   (NzbSegment.Number <$> NzbFile.Segments file)
                   (NzbFile.TotalSegments file')
       /\ 1 <= NzbFile.TotalSegments file')
    (Nzb.Files nzb) (Nzb.Files (ScanNzbFile nzb)).
Proof.
  destruct (ScanNzbFile_files nzb) as (out & -> & Hall & _).
  eapply Forall2_impl; [exact Hall|].
  intros file file' (_ & _ & _ & _ & _ & _ & _ & Hbytes & Hmax).
  split; [exact Hbytes|]. split; [exact Hmax|].
  destruct Hmax as (Hstart & _).
  pose proof (ParseSubject_total_segments_pos (NzbFile.Subject file)). lia.
Qed.

(** X8: the totals that ScanNzbFile sets: Segments counts the segments of
    all files, TotalSegments adds up the TotalSegments of the files and
    Bytes the Bytes of all segments, each as Go's integers add up; and
    TotalFiles is the greatest of the number of files and the totals
    parsed from the subjects. *)
Theorem ScanNzbFile_totals nzb :
  Nzb.Segments (ScanNzbFile nzb)
  = wrap64 (sumZ ((fun file => Z.of_nat (length (NzbFile.Segments file)))
                    <$> Nzb.Files nzb))
  /\ Nzb.TotalSegments (ScanNzbFile nzb)
     = wrap64 (sumZ (NzbFile.TotalSegments <$> Nzb.Files (ScanNzbFile nzb)))
  /\ Nzb.Bytes (ScanNzbFile nzb)
     = wrap64 (sumZ ((fun file => sumZ (NzbSegment.Bytes <$> NzbFile.Segments file))
                       <$> Nzb.Files nzb))
  /\ greatest (Z.of_nat (length (Nzb.Files nzb)))
              ((fun file => TotalFiles (ParseSubject (NzbFile.Subject file)).1)
                 <$> Nzb.Files nzb)
              (Nzb.TotalFiles (ScanNzbFile nzb)).
Proof.
  destruct (ScanNzbFile_files nzb) as (out & -> & _ & Hseg & Htot & Hbytes & Hfiles).
  split; [exact Hseg|]. split; [exact Htot|]. split; [exact Hbytes|].
  unfold ScanNzbFile. cbn [Nzb.TotalFiles].
  set (m := totalFiles _) in *. set (l := _ <$> Nzb.Files nzb) in *.
  destruct Hfiles as (Hzero & Hall & Hm). unfold greatest.
  destruct (Z.ltb_spec m (Z.of_nat (length (Nzb.Files nzb)))) as [Hlt|Hge].
  - split; [lia|]. split; [|left; reflexivity].
    eapply Forall_impl; [exact Hall|]. intros z Hz. simpl in Hz. lia.
  - split; [lia|]. split; [exact Hall|].
    destruct Hm as [Hm|Hm]; [left; lia|right; exact Hm].
Qed.

End ScanTotals.


(** ** More on [MakeUnique] *)

Section UniqueMore.

Context {A : Type} (key : A -> string).

(** entries with pairwise distinct keys are all kept *)
Lemma collect_distinct l : forall st,
  tracks key st -> NoDup (key <$> (st.2 ++ l)) ->
  (foldl (collect key) st l).2 = st.2 ++ l.
Proof.
  induction l as [|y l IH]; intros [m out] Htr Hnd; cbn [fst snd foldl] in *.
  - rewrite app_nil_r. reflexivity.
  - assert (Hnotin : key y ∉ key <$> out).
    { rewrite fmap_app in Hnd. apply NoDup_app in Hnd as (_ & Hdis & _).
      intros Hin. apply (Hdis _ Hin). cbn. apply elem_of_cons. auto. }
    unfold collect at 2. cbn [fst snd].
    apply (Htr (key y)) in Hnotin as Hm. cbn [fst] in Hm. rewrite Hm.
    rewrite IH; cbn [fst snd].
    + rewrite <- app_assoc. reflexivity.
    + intros k. cbn [fst snd]. rewrite fmap_app. cbn.
      rewrite not_elem_of_app, not_elem_of_cons.
      destruct (decide (key y = k)) as [<-|Hne].
      * rewrite lookup_insert_eq. split; [discriminate|]. intros (_ & [] & _).
        reflexivity.
      * rewrite lookup_insert_ne by exact Hne. rewrite (Htr k). cbn.
        split; [intros Hk; repeat split; [exact Hk|congruence|apply not_elem_of_nil]
               |intros (Hk & _); exact Hk].
    + rewrite <- app_assoc. exact Hnd.
Qed.

Lemma unique_distinct l : NoDup (key <$> l) -> unique key l = l.
Proof.
  intros Hnd. unfold unique. rewrite collect_distinct; [reflexivity| |exact Hnd].
  intros k. cbn. rewrite lookup_empty. split; [intros _; apply not_elem_of_nil|auto].
Qed.

Lemma unique_idempotent l : unique key (unique key l) = unique key l.
Proof.
  apply unique_distinct. destruct (unique_first key l) as (_ & Hnd & _). exact Hnd.
Qed.

End UniqueMore.

Lemma setSegments_same file :
  NzbFile.setSegments (NzbFile.Segments file) file = file.
Proof. destruct file. reflexivity. Qed.

Lemma MakeUnique_distinct nzb :
  NoDup (NzbFile.Subject <$> Nzb.Files nzb) ->
  Forall (fun file => NoDup (NzbSegment.ID <$> NzbFile.Segments file))
         (Nzb.Files nzb) ->
  MakeUnique nzb = nzb.
Proof.
  intros Hfiles Hsegs. unfold MakeUnique.
  rewrite (unique_distinct _ _ Hfiles).
  replace (_ <$> Nzb.Files nzb) with (Nzb.Files nzb); [destruct nzb; reflexivity|].
  induction Hsegs as [|file files Hfile _ IH]; [reflexivity|].
  apply NoDup_cons in Hfiles as [_ Hfiles].
  cbn [fmap list_fmap]. rewrite (unique_distinct _ _ Hfile), setSegments_same.
  f_equal. apply IH, Hfiles.
Qed.

(** X9: MakeUnique changes nothing in an Nzb whose files have pairwise
    distinct subjects and, each of them, segments with pairwise distinct
    IDs. *)
Theorem MakeUnique_without_duplicates nzb :
  NoDup (NzbFile.Subject <$> Nzb.Files nzb) ->
  Forall (fun file => NoDup (NzbSegment.ID <$> NzbFile.Segments file))
         (Nzb.Files nzb) ->
  MakeUnique nzb = nzb.
Proof. apply MakeUnique_distinct. Qed.

(** X10: MakeUnique applied twice gives what it gives applied once. *)
Theorem MakeUnique_idempotent nzb : MakeUnique (MakeUnique nzb) = MakeUnique nzb.
Proof.
  apply MakeUnique_distinct.
  - unfold MakeUnique. cbn [Nzb.Files]. rewrite <- list_fmap_compose.
    destruct (unique_first NzbFile.Subject (Nzb.Files nzb)) as (_ & Hnd & _).
    exact Hnd.
  - unfold MakeUnique. cbn [Nzb.Files].
    apply Forall_fmap, Forall_forall. intros file _. cbn.
    destruct (unique_first NzbSegment.ID (NzbFile.Segments file)) as (_ & Hnd & _).
    exact Hnd.
Qed.

(** X11: scanning after MakeUnique, as ParseWithOptions does when
    duplicates are to be removed, leaves files with pairwise distinct
    subjects, the first file of the Nzb for each subject, in their
    order. *)
Theorem ScanNzbFile_after_MakeUnique `{Unicode} `{Html} nzb :
  NoDup (NzbFile.Subject <$> Nzb.Files (ScanNzbFile (MakeUnique nzb)))
  /\ exists kept,
       FirstOccurrences NzbFile.Subject (Nzb.Files nzb) kept
       /\ NzbFile.Subject <$> Nzb.Files (ScanNzbFile (MakeUnique nzb))
          = NzbFile.Subject <$> kept.
Proof.
  assert (Hsame : NzbFile.Subject <$> Nzb.Files (ScanNzbFile (MakeUnique nzb))
                  = NzbFile.Subject <$> unique NzbFile.Subject (Nzb.Files nzb)).
  { destruct (ScanNzbFile_files (MakeUnique nzb)) as (out & -> & Hall & _).
    transitivity (NzbFile.Subject <$> Nzb.Files (MakeUnique nzb)).
    - symmetry. induction Hall as [|f f' l l' Hf _ IH]; [reflexivity|].
      cbn [fmap list_fmap]. destruct Hf as (_ & _ & _ & <- & _). f_equal. exact IH.
    - unfold MakeUnique. cbn [Nzb.Files]. rewrite <- list_fmap_compose. reflexivity. }
  pose proof (unique_first NzbFile.Subject (Nzb.Files nzb)) as Hfirst.
  split; [|eexists; split; [exact Hfirst|exact Hsame]].
  rewrite Hsame. destruct Hfirst as (_ & Hnd & _). exact Hnd.
Qed.

(** ** [MakeUnique] at a given Nzb *)

Lemma MakeUnique_without_duplicates_witness :
  let seg := fun id => NzbSegment.mk 100 1 id in
  let file := fun subject segs =>
    NzbFile.mk [] segs "poster" 0 subject 0 "" 0 "" "" 0 in
  let nzb := Nzb.mk "" ∅ [file "a" [seg "x"; seg "y"]; file "b" [seg "x"]] 0 0 0 0 in
  NoDup (NzbFile.Subject <$> Nzb.Files nzb)
  /\ Forall (fun file => NoDup (NzbSegment.ID <$> NzbFile.Segments file))
            (Nzb.Files nzb)
  /\ MakeUnique nzb = nzb.
Proof.
  cbv zeta.
  assert (H1 : NoDup ["a"; "b"]).
  { apply NoDup_cons. split; [|apply NoDup_singleton].
    rewrite list_elem_of_singleton. discriminate. }
  assert (H2 : NoDup ["x"; "y"]).
  { apply NoDup_cons. split; [|apply NoDup_singleton].
    rewrite list_elem_of_singleton. discriminate. }
  assert (H3 : NoDup ["x"]) by (apply NoDup_singleton).
  assert (H4 : Forall (fun file => NoDup (NzbSegment.ID <$> NzbFile.Segments file))
                 [NzbFile.mk [] [NzbSegment.mk 100 1 "x"; NzbSegment.mk 100 1 "y"]
                    "poster" 0 "a" 0 "" 0 "" "" 0;
                  NzbFile.mk [] [NzbSegment.mk 100 1 "x"] "poster" 0 "b" 0 "" 0 "" "" 0])
    by (constructor; [exact H2|constructor; [exact H3|constructor]]).
  split; [exact H1|]. split; [exact H4|].
  apply MakeUnique_without_duplicates; [exact H1|exact H4].
Defined.


(** ** Subject lines without a quoted file name *)

Section Unquoted.

Context `{Unicode}.

Lemma dualQuote_few subject remainder :
  (length (quotedStrings remainder) <= 1)%nat -> dualQuote subject remainder = subject.
Proof.
  intros Hlen. unfold dualQuote.
  destruct (nonEmpty (Filename subject) && _); [|reflexivity].
  destruct (Nat.ltb_spec 1 (length (quotedStrings remainder))); [lia|reflexivity].
Qed.

Lemma refineExtension_few subject remainder :
  (length (quotedStrings remainder) <= 1)%nat ->
  refineExtension subject remainder = subject.
Proof.
  intros Hlen. unfold refineExtension.
  destruct (nonEmpty (Filename subject)); [|reflexivity].
  destruct (Nat.ltb_spec 1 (length (quotedStrings remainder))); [lia|reflexivity].
Qed.

(** X12: a single file post whose remainder holds no file name between
    quotes, no file name with an extension and at most one quoted string:
    what is left of the subject line, without the spaces and hyphens
    around it, is the Header, the Filename and the Basefilename. *)
Theorem ParseSubject_unquoted_name s :
  let remainder := (numbering s).2 in
  findAllNamedMatches quotedRE remainder = None ->
  findAllNamedMatches plainRE remainder = None ->
  (length (quotedStrings remainder) <= 1)%nat ->
  TotalFiles (ParseSubject s).1 = 1 ->
  Trim remainder " -" <> EmptyString ->
  Header (ParseSubject s).1 = Trim remainder " -"
  /\ Filename (ParseSubject s).1 = Trim remainder " -"
  /\ Basefilename (ParseSubject s).1 = Trim remainder " -".
Proof.
  cbv zeta. intros Hq Hp Hlen Hone Hname.
  destruct (kept_eq _ _ (ParseSubject_kept s)) as (_ & _ & Htf & _ & _).
  rewrite Htf in Hone. clear Htf.
  destruct (numbering_texts s) as (_ & Hh & _ & _).
  rewrite ParseSubject_fst.
  rewrite dualQuote_few, refineExtension_few by exact Hlen.
  unfold parseName. rewrite Hq, Hp, Hone. cbn [Z.eqb Pos.eqb].
  generalize dependent (numbering s). intros [subject remainder].
  cbn [fst snd]. intros Hq Hp Hlen Hone Hname Hh.
  assert (Hne : nonEmpty (Trim remainder " -") = true).
  { destruct (nonEmpty (Trim remainder " -")) eqn:E; [reflexivity|].
    apply nonEmpty_false in E. contradiction. }
  unfold backfillHeader, leadingFallback.
  cbn [Header Filename Basefilename setFilename setBasefilename setHeader].
  rewrite Hh. cbn [Str.isEmpty andb]. rewrite Hne.
  cbn [Header Filename Basefilename setFilename setBasefilename setHeader].
  unfold nonEmpty in Hne. apply negb_true_iff in Hne. rewrite Hne.
  cbn [Header Filename Basefilename setFilename setBasefilename setHeader].
  auto.
Qed.

End Unquoted.

Lemma ParseSubject_unquoted_name_witness :
  let s := "This is not a parseable subject" in
  let remainder := (numbering s).2 in
  findAllNamedMatches quotedRE remainder = None
  /\ findAllNamedMatches plainRE remainder = None
  /\ (length (quotedStrings remainder) <= 1)%nat
  /\ TotalFiles (@ParseSubject noTables s).1 = 1
  /\ Trim remainder " -" <> EmptyString
  /\ Header (@ParseSubject noTables s).1 = s
  /\ Filename (@ParseSubject noTables s).1 = s
  /\ Basefilename (@ParseSubject noTables s).1 = s.
Proof.
  cbv zeta.
  assert (H1 : findAllNamedMatches quotedRE
                 (numbering "This is not a parseable subject").2 = None)
    by (vm_compute; reflexivity).
  assert (H2 : findAllNamedMatches plainRE
                 (numbering "This is not a parseable subject").2 = None)
    by (vm_compute; reflexivity).
  assert (H3 : (length (quotedStrings
                  (numbering "This is not a parseable subject").2) <= 1)%nat)
    by (vm_compute; lia).
  assert (H4 : TotalFiles
                 (@ParseSubject noTables "This is not a parseable subject").1 = 1)
    by (vm_compute; reflexivity).
  assert (H5 : Trim (numbering "This is not a parseable subject").2 " -"
               <> EmptyString) by (vm_compute; discriminate).
  assert (H6 : Trim (numbering "This is not a parseable subject").2 " -"
               = "This is not a parseable subject") by (vm_compute; reflexivity).
  destruct (@ParseSubject_unquoted_name noTables "This is not a parseable subject"
              H1 H2 H3 H4 H5) as (Ha & Hb & Hc).
  rewrite H6 in Ha, Hb, Hc.
  repeat (split; [assumption|]). assumption.
Defined.


(** ** The fuel of the matcher is enough *)

Section Fuel.

Context {R : Type}.

(** [exec] hands its continuation a suffix of the text, at the position
    of that suffix: continuations that agree there give the same
    result. *)
Lemma iterate_ext (body : nat -> string -> captures -> @cont R -> option R)
    (greedy : bool) :
  (forall (k1 k2 : @cont R) pos s c,
     (forall w s' c', s = w +:+ s' ->
        k1 (pos + String.length w)%nat s' c' = k2 (pos + String.length w)%nat s' c') ->
     body pos s c k1 = body pos s c k2) ->
  forall fuel (k1 k2 : @cont R) pos s c,
    (forall w s' c', s = w +:+ s' ->
       k1 (pos + String.length w)%nat s' c' = k2 (pos + String.length w)%nat s' c') ->
    iterate body greedy k1 fuel pos s c = iterate body greedy k2 fuel pos s c.
Proof.
  intros Hbody. induction fuel as [|fuel IH]; intros k1 k2 pos s c Hk; cbn [iterate].
  - specialize (Hk EmptyString s c eq_refl). cbn in Hk. rewrite Nat.add_0_r in Hk.
    exact Hk.
  - assert (Hhere : k1 pos s c = k2 pos s c).
    { specialize (Hk EmptyString s c eq_refl). cbn in Hk.
      rewrite Nat.add_0_r in Hk. exact Hk. }
    rewrite Hhere.
    rewrite (Hbody _ (fun pos' s' c' =>
               if (pos <? pos')%nat then iterate body greedy k2 fuel pos' s' c'
               else None)); [reflexivity|].
    intros w s' c' ->.
    destruct (pos <? pos + String.length w)%nat; [|reflexivity].
    apply IH. intros w2 s2 c2 ->.
    rewrite <- Nat.add_assoc, <- length_append. apply Hk.
    symmetry. apply append_assoc.
Qed.

Lemma exec_ext r : forall (k1 k2 : @cont R) pos s c,
  (forall w s' c', s = w +:+ s' ->
     k1 (pos + String.length w)%nat s' c' = k2 (pos + String.length w)%nat s' c') ->
  exec r pos s c k1 = exec r pos s c k2.
Proof.
  induction r as [|p|r1 IH1 r2 IH2|r1 IH1 r2 IH2|g r1 IH1|n r1 IH1| |];
    intros k1 k2 pos s c Hk; cbn [exec].
  - specialize (Hk EmptyString s c eq_refl). cbn in Hk. rewrite Nat.add_0_r in Hk.
    exact Hk.
  - destruct s as [|a s']; [reflexivity|]. destruct (p a); [|reflexivity].
    specialize (Hk (String a EmptyString) s' c eq_refl). cbn in Hk.
    replace (pos + 1)%nat with (S pos) in Hk by lia. exact Hk.
  - apply IH1. intros w1 s1 c1 ->. apply IH2. intros w2 s2 c2 ->.
    rewrite <- Nat.add_assoc, <- length_append. apply Hk.
    symmetry. apply append_assoc.
  - rewrite (IH1 k1 k2), (IH2 k1 k2) by exact Hk. reflexivity.
  - apply iterate_ext; [|exact Hk]. intros. apply IH1. assumption.
  - apply IH1. intros w s' c' ->. apply Hk. reflexivity.
  - destruct (pos =? 0)%nat; [|reflexivity].
    specialize (Hk EmptyString s c eq_refl). cbn in Hk. rewrite Nat.add_0_r in Hk.
    exact Hk.
  - destruct (Str.isEmpty s); [|reflexivity].
    specialize (Hk EmptyString s c eq_refl). cbn in Hk. rewrite Nat.add_0_r in Hk.
    exact Hk.
Qed.

Lemma iterate_none body greedy fuel : forall pos s c,
  (forall pos s c, body pos s c (fun _ _ _ => None) = @None R) ->
  (forall (k1 k2 : @cont R) pos s c,
     (forall w s' c', s = w +:+ s' ->
        k1 (pos + String.length w)%nat s' c' = k2 (pos + String.length w)%nat s' c') ->
     body pos s c k1 = body pos s c k2) ->
  iterate body greedy (fun _ _ _ => None) fuel pos s c = @None R.
Proof.
  induction fuel as [|fuel IH]; intros pos s c Hnone Hext; cbn [iterate];
    [reflexivity|].
  rewrite (Hext _ (fun _ _ _ => None)).
  - rewrite Hnone. destruct greedy; reflexivity.
  - intros w s' c' _. destruct (pos <? _)%nat; [|reflexivity]. apply IH; assumption.
Qed.

Lemma exec_none r : forall pos s c, exec r pos s c (fun _ _ _ => None) = @None R.
Proof.
  induction r as [|p|r1 IH1 r2 IH2|r1 IH1 r2 IH2|g r1 IH1|n r1 IH1| |];
    intros pos s c; cbn [exec].
  - reflexivity.
  - destruct s as [|a s']; [reflexivity|]. destruct (p a); reflexivity.
  - rewrite (exec_ext r1 _ (fun _ _ _ => None)); [apply IH1|].
    intros. apply IH2.
  - rewrite IH1. apply IH2.
  - apply iterate_none; [exact IH1|]. intros. apply exec_ext. assumption.
  - apply IH1.
  - destruct (pos =? 0)%nat; reflexivity.
  - destruct (Str.isEmpty s); reflexivity.
Qed.

(** With nothing left to read, an iteration cannot consume anything. *)
Lemma iterate_at_end r greedy (k : @cont R) fuel pos c :
  iterate (exec r) greedy k fuel pos EmptyString c = k pos EmptyString c.
Proof.
  destruct fuel as [|fuel]; cbn [iterate]; [reflexivity|].
  rewrite (exec_ext r _ (fun _ _ _ => None)).
  - rewrite exec_none. destruct greedy; [reflexivity|].
    destruct (k pos EmptyString c); reflexivity.
  - intros w s' c' Hw.
    assert (String.length (w +:+ s') = 0%nat) by (rewrite <- Hw; reflexivity).
    rewrite length_append in *.
    destruct (Nat.ltb_spec pos (pos + String.length w)); [lia|reflexivity].
Qed.

(** The fuel that [exec] gives to a repetition, the length of the text
    that is left, is never used up: more fuel changes nothing. *)
Lemma iterate_fuel r greedy (k : @cont R) : forall n m pos s c,
  (String.length s <= n)%nat -> (String.length s <= m)%nat ->
  iterate (exec r) greedy k n pos s c = iterate (exec r) greedy k m pos s c.
Proof.
  induction n as [|n IH]; intros m pos s c Hn Hm.
  - destruct s; [|simpl in Hn; lia]. rewrite !iterate_at_end. reflexivity.
  - destruct m as [|m].
    + destruct s; [|simpl in Hm; lia]. rewrite !iterate_at_end. reflexivity.
    + cbn [iterate].
      rewrite (exec_ext r _ (fun pos' s' c' =>
                 if (pos <? pos')%nat then iterate (exec r) greedy k m pos' s' c'
                 else None)); [reflexivity|].
      intros w s' c' Hw.
      assert (Hlen : String.length s = (String.length w + String.length s')%nat)
        by (rewrite Hw; apply length_append).
      destruct (Nat.ltb_spec pos (pos + String.length w)); [|reflexivity].
      apply IH; lia.
Qed.

End Fuel.

Lemma capsOnly_none P r : capsOnly P (fun _ => false) r = true.
Proof. induction r; simpl; rewrite ?IHr1, ?IHr2; auto. Qed.

(** where [search] finds a match *)
Lemma search_bounds r s pos m :
  search r pos s = Some m -> (pos <= mBegin m <= mEnd m)%nat.
Proof.
  intros Hs.
  apply (search_sound (fun _ => true) (fun _ => false) r (capsOnly_none _ r)) in Hs.
  tauto.
Qed.

(** The search for all matches moves on at every round, so that the fuel
    [FindAllStringSubmatch] gives it is never used up. *)
Lemma allMatches_fuel r text : forall n m pos prev,
  (String.length text + 2 <= n + pos)%nat ->
  (String.length text + 2 <= m + pos)%nat ->
  allMatches n r text pos prev = allMatches m r text pos prev.
Proof.
  induction n as [|n IH]; intros m pos prev Hn Hm.
  - destruct m as [|m]; [reflexivity|]. cbn [allMatches].
    destruct (Nat.ltb_spec (String.length text) pos); [reflexivity|lia].
  - destruct m as [|m]; cbn [allMatches].
    + destruct (Nat.ltb_spec (String.length text) pos); [reflexivity|lia].
    + destruct (Nat.ltb_spec (String.length text) pos) as [|Hpos]; [reflexivity|].
      destruct (search r pos (Str.drop pos text)) as [mt|] eqn:Hs; [|reflexivity].
      apply search_bounds in Hs. cbv zeta.
      set (pos' := if (mEnd mt =? pos)%nat then _ else mEnd mt).
      assert (Hmove : (pos < pos')%nat).
      { subst pos'. destruct (Nat.eqb_spec (mEnd mt) pos) as [He|He]; [|lia].
        destruct (Nat.ltb_spec 0 (runeWidth (Str.drop pos text))); lia. }
      rewrite (IH m pos' (Some (mEnd mt))) by lia. reflexivity.
Qed.


(** ** Named groups and meta data *)



Lemma convertMetadata_snoc l md :
  convertMetadata (l ++ [md])
  = <[xNzbMeta.Type_ md := xNzbMeta.Value md]> (convertMetadata l).
Proof. unfold convertMetadata. rewrite foldl_app. reflexivity. Qed.

(** X14: in the map that ParseWithOptions builds from the meta entries of
    an nzb file, a type has the value of the last entry of that type, and
    a type without an entry has none. *)
Theorem convertMetadata_last metadata type :
  convertMetadata metadata !! type
  = xNzbMeta.Value
      <$> last (filter (fun md => xNzbMeta.Type_ md = type) metadata).
Proof.
  induction metadata as [|md l IH] using rev_ind; [reflexivity|].
  rewrite convertMetadata_snoc, filter_app.
  destruct (decide (xNzbMeta.Type_ md = type)) as [<-|Hne].
  - rewrite lookup_insert_eq. rewrite filter_cons_True by reflexivity.
    rewrite filter_nil, last_snoc. reflexivity.
  - rewrite lookup_insert_ne by exact Hne. rewrite filter_cons_False by exact Hne.
    rewrite filter_nil, app_nil_r. exact IH.
Qed.






(** ** A pair with a zero total; totals without overflow *)

Section ZeroTotal.

Context `{Unicode}.

(** X16: a subject line whose only pair has a zero total, in whatever
    brackets, gets the default numbers when [x of y] is not found: the
    pair is dropped. *)
Theorem ParseSubject_single_pair_zero_total s sh x :
  pairs s = [(sh, x, 0)] -> ofRecognized s = false ->
  numbers (ParseSubject s).1 = (1, 1, 1, 1).
Proof.
  intros Hp Hof.
  assert (Hne : pairs s <> []) by (rewrite Hp; discriminate).
  unfold pairs in Hp.
  destruct (assignBackwards_snoc _ [] _ (newSubject s, false) Hp)
    as (ms1 & m & Hm & Hps & E).
  rewrite (assignBackwards_no_pairs ms1 _ Hps) in E.
  rewrite (assignNumbers_pair _ _ _ _ _ Hm) in E.
  cbn [fst newSubject File Segment Z.eqb andb] in E.
  pose proof (numberMatches_some s Hne) as Hsome.
  rewrite ParseSubject_numbers.
  unfold ofRecognized in Hof. unfold numbering.
  generalize dependent (parseNumbers (newSubject s)).2. intros remainder Hof.
  unfold parseNumbers. cbn [Subject newSubject].
  rewrite Hsome. cbn [fst snd]. rewrite E.
  unfold defaultSegments, parseFilesOf.
  destruct sh;
    cbn [fst TotalSegments TotalFiles setFiles setSegments Z.eqb];
    (destruct (findAllNamedMatches ofRE remainder) as [matches|];
     [rewrite Hof|]; reflexivity).
Qed.

End ZeroTotal.

Lemma ParseSubject_single_pair_zero_total_witness :
  let s := "Some.File.mkv (1/0)" in
  pairs s = [(Parenthesized, 1, 0)]
  /\ ofRecognized s = false
  /\ numbers (@ParseSubject noTables s).1 = (1, 1, 1, 1).
Proof.
  cbv zeta.
  assert (H1 : pairs "Some.File.mkv (1/0)" = [(Parenthesized, 1, 0)])
    by (vm_compute; reflexivity).
  assert (H2 : ofRecognized "Some.File.mkv (1/0)" = false)
    by (vm_compute; reflexivity).
  split; [exact H1|]. split; [exact H2|].
  exact (@ParseSubject_single_pair_zero_total noTables _ _ _ H1 H2).
Defined.



Section Exact.

Context `{Unicode} `{Html}.


End Exact.



(** ** No base file name without a file name *)

Section Passing.

Context {R : Type}.
Variable T : string -> captures -> string -> captures -> Prop.
Hypothesis T_refl : forall s c, T s c s c.
Hypothesis T_trans : forall s c s1 c1 s2 c2,
  T s c s1 c1 -> T s1 c1 s2 c2 -> T s c s2 c2.
Hypothesis T_byte : forall a s c, T (String a s) c s c.

Lemma passes_iterate (body : nat -> string -> captures -> @cont R -> option R)
    greedy (k : @cont R) :
  passes T body ->
  forall fuel pos s c res, iterate body greedy k fuel pos s c = Some res ->
    exists pos' s' c', T s c s' c' /\ k pos' s' c' = Some res.
Proof.
  intros Hbody. induction fuel as [|fuel IH]; intros pos s c res Hit.
  - exists pos, s, c. split; [apply T_refl | exact Hit].
  - cbn [iterate] in Hit.
    assert (Hmore : forall again,
      again = (fun pos' s' c' =>
         if (pos <? pos')%nat then iterate body greedy k fuel pos' s' c' else None) ->
      body pos s c again = Some res ->
      exists pos' s' c', T s c s' c' /\ k pos' s' c' = Some res).
    { intros again -> Hb.
      destruct (Hbody _ _ _ _ _ Hb) as (p1 & s1 & c1 & HT1 & Hk1).
      destruct (pos <? p1)%nat; [|discriminate].
      destruct (IH _ _ _ _ Hk1) as (p2 & s2 & c2 & HT2 & Hk2).
      exists p2, s2, c2. split; [eapply T_trans; eassumption | exact Hk2]. }
    destruct greedy.
    + destruct (body pos s c _) eqn:Hb.
      * inversion Hit; subst. eapply Hmore; [reflexivity | exact Hb].
      * exists pos, s, c. split; [apply T_refl | exact Hit].
    + destruct (k pos s c) eqn:Hk.
      * inversion Hit; subst. exists pos, s, c. split; [apply T_refl | exact Hk].
      * eapply Hmore; [reflexivity | exact Hit].
Qed.

Lemma passes_empty : passes T (exec (R:=R) Empty).
Proof. intros pos s c k res Hex. exists pos, s, c. split; [apply T_refl | exact Hex]. Qed.

Lemma passes_class p : passes T (exec (R:=R) (Class p)).
Proof.
  intros pos s c k res Hex. cbn [exec] in Hex.
  destruct s as [|a s']; [discriminate|].
  destruct (p a); [|discriminate].
  exists (S pos), s', c. split; [apply T_byte | exact Hex].
Qed.

Lemma passes_cat r1 r2 :
  passes T (exec (R:=R) r1) -> passes T (exec (R:=R) r2) ->
  passes T (exec (R:=R) (Cat r1 r2)).
Proof.
  intros H1 H2 pos s c k res Hex. cbn [exec] in Hex.
  destruct (H1 _ _ _ _ _ Hex) as (p1 & s1 & c1 & HT1 & Hk1).
  destruct (H2 _ _ _ _ _ Hk1) as (p2 & s2 & c2 & HT2 & Hk2).
  exists p2, s2, c2. split; [eapply T_trans; eassumption | exact Hk2].
Qed.

Lemma passes_or r1 r2 :
  passes T (exec (R:=R) r1) -> passes T (exec (R:=R) r2) ->
  passes T (exec (R:=R) (Or r1 r2)).
Proof.
  intros H1 H2 pos s c k res Hex. cbn [exec] in Hex.
  destruct (exec r1 pos s c k) eqn:E1.
  - inversion Hex; subst. exact (H1 _ _ _ _ _ E1).
  - exact (H2 _ _ _ _ _ Hex).
Qed.

Lemma passes_rep greedy r1 :
  passes T (exec (R:=R) r1) -> passes T (exec (R:=R) (Rep greedy r1)).
Proof.
  intros H1 pos s c k res Hex. cbn [exec] in Hex.
  eapply passes_iterate; [exact H1 | exact Hex].
Qed.

Lemma passes_begin : passes T (exec (R:=R) BeginText).
Proof.
  intros pos s c k res Hex. cbn [exec] in Hex.
  destruct (pos =? 0)%nat; [|discriminate].
  exists pos, s, c. split; [apply T_refl | exact Hex].
Qed.

Lemma passes_end : passes T (exec (R:=R) EndText).
Proof.
  intros pos s c k res Hex. cbn [exec] in Hex.
  destruct (Str.isEmpty s); [|discriminate].
  exists pos, s, c. split; [apply T_refl | exact Hex].
Qed.

End Passing.

Section NestingFacts.

Variables outer inner : nat.
Context {R : Type}.

Lemma framed_refl s c : framed outer inner s c s c.
Proof. split; [exists EmptyString; reflexivity | split; reflexivity]. Qed.

Lemma framed_trans s c s1 c1 s2 c2 :
  framed outer inner s c s1 c1 -> framed outer inner s1 c1 s2 c2 ->
  framed outer inner s c s2 c2.
Proof.
  intros ([w1 ->] & Ho1 & Hi1) ([w2 ->] & Ho2 & Hi2). split; [|split].
  - exists (w1 +:+ w2). symmetry. apply append_assoc.
  - congruence.
  - congruence.
Qed.

Lemma framed_byte a s c : framed outer inner (String a s) c s c.
Proof.
  split; [exists (String a EmptyString); reflexivity | split; reflexivity].
Qed.

Lemma exec_free r : free outer inner r = true ->
  passes (framed outer inner) (exec (R:=R) r).
Proof.
  induction r as [|p|r1 IH1 r2 IH2|r1 IH1 r2 IH2|g r1 IH1|n r1 IH1| |];
    intros Hfree; cbn [free] in Hfree.
  - apply passes_empty, framed_refl.
  - apply passes_class, framed_byte.
  - apply andb_true_iff in Hfree as [H1 H2].
    apply passes_cat; [apply framed_trans | auto | auto].
  - apply andb_true_iff in Hfree as [H1 H2].
    apply passes_or; auto.
  - apply passes_rep; [apply framed_refl | apply framed_trans | auto].
  - apply andb_true_iff in Hfree as [Hn H1].
    apply andb_true_iff in Hn as [Hno Hni].
    apply negb_true_iff in Hno, Hni.
    intros pos s c k res Hex. cbn [exec] in Hex.
    destruct (IH1 H1 _ _ _ _ _ Hex) as (p1 & s1 & c1 & (Hw & Ho & Hi) & Hk).
    exists p1, s1, ((n, Str.consumed s s1) :: c1). split; [|exact Hk].
    split; [exact Hw|]. cbn [capture]. rewrite Hno, Hni. split; assumption.
  - apply passes_begin, framed_refl.
  - apply passes_end, framed_refl.
Qed.

Lemma exec_nests r : nests outer inner r = true ->
  passes (keepsNested outer inner) (exec (R:=R) r).
Proof.
  assert (Hrefl : forall s c, keepsNested outer inner s c s c)
    by (intros s c Hc; exact Hc).
  assert (Htrans : forall s c s1 c1 s2 c2,
    keepsNested outer inner s c s1 c1 -> keepsNested outer inner s1 c1 s2 c2 ->
    keepsNested outer inner s c s2 c2)
    by (intros s c s1 c1 s2 c2 H1 H2 Hc; exact (H2 (H1 Hc))).
  induction r as [|p|r1 IH1 r2 IH2|r1 IH1 r2 IH2|g r1 IH1|n r1 IH1| |];
    intros Hn; cbn [nests] in Hn.
  - apply passes_empty, Hrefl.
  - apply passes_class. intros a s c Hc. exact Hc.
  - apply andb_true_iff in Hn as [H1 H2]. apply passes_cat; auto.
  - apply andb_true_iff in Hn as [H1 H2]. apply passes_or; auto.
  - apply passes_rep; auto.
  - destruct (n =? outer)%nat eqn:Eo.
    + apply Nat.eqb_eq in Eo. subst n.
      destruct r1 as [| |r11 r12| | | | |]; try discriminate.
      destruct r11 as [| | | | |m r11| |]; try discriminate.
      apply andb_true_iff in Hn as [Hn H12].
      apply andb_true_iff in Hn as [Em H11].
      apply Nat.eqb_eq in Em. subst m.
      intros pos s c k res Hex. cbn [exec] in Hex.
      destruct (exec_free r11 H11 _ _ _ _ _ Hex)
        as (p1 & s1 & c1 & ([w1 ->] & _ & _) & Hk1).
      destruct (exec_free r12 H12 _ _ _ _ _ Hk1)
        as (p2 & s2 & c2 & ([w2 ->] & _ & Hi2) & Hk2).
      cbn [capture] in Hi2. rewrite Nat.eqb_refl, consumed_append in Hi2.
      eexists _, _, _. split; [|exact Hk2].
      intros _. unfold nested. cbn [capture].
      rewrite Nat.eqb_refl, Hi2.
      rewrite <- (append_assoc w1 w2 s2), consumed_append.
      destruct (outer =? inner)%nat.
      * exists EmptyString. symmetry. apply append_nil_r.
      * exists w2. reflexivity.
    + apply andb_true_iff in Hn as [Ei H1]. apply negb_true_iff in Ei.
      intros pos s c k res Hex. cbn [exec] in Hex.
      destruct (IH1 H1 _ _ _ _ _ Hex) as (p1 & s1 & c1 & HT & Hk).
      eexists _, _, _. split; [|exact Hk].
      intros Hc. specialize (HT Hc). unfold nested in *. cbn [capture].
      rewrite Eo, Ei. exact HT.
  - apply passes_begin, Hrefl.
  - apply passes_end, Hrefl.
Qed.

End NestingFacts.

Lemma search_nested outer inner r : nests outer inner r = true ->
  forall s pos m, search r pos s = Some m -> nested outer inner (mCaps m).
Proof.
  intros Hn.
  assert (Hex : forall pos s m,
    exec r pos s [] (fun e _ c => Some (Found pos e c)) = Some m ->
    nested outer inner (mCaps m)).
  { intros pos s m E.
    destruct (exec_nests outer inner r Hn _ _ _ _ _ E) as (p & s' & c' & HT & Hk).
    inversion Hk; subst. cbn [mCaps]. apply HT.
    exists EmptyString. reflexivity. }
  induction s as [|a s IH]; intros pos m Hs; cbn [search] in Hs.
  - destruct (exec r pos EmptyString [] _) eqn:E; [|discriminate].
    inversion Hs; subst. eapply Hex, E.
  - destruct (exec r pos (String a s) [] _) eqn:E.
    + inversion Hs; subst. eapply Hex, E.
    + eapply IH, Hs.
Qed.

Lemma allMatches_nested outer inner r text : nests outer inner r = true ->
  forall fuel pos prev,
    Forall (fun m => nested outer inner (mCaps m)) (allMatches fuel r text pos prev).
Proof.
  intros Hn. induction fuel as [|fuel IH]; intros pos prev; simpl.
  - constructor.
  - destruct (String.length text <? pos)%nat; [constructor|].
    destruct (search r pos (Str.drop pos text)) as [m|] eqn:Hs; [|constructor].
    apply (search_nested _ _ r Hn) in Hs.
    destruct (negb _); [constructor; [exact Hs|]|]; apply IH.
Qed.

(** the first match of a pattern, by the groups that [search] closed *)
Lemma findAllNamedMatches_first outer inner re text matches :
  nests outer inner (prog re) = true ->
  findAllNamedMatches re text = Some matches ->
  exists m, nested outer inner (mCaps m)
    /\ first matches = namedGroups (SubexpNames re) (submatches re text m).
Proof.
  intros Hn. unfold findAllNamedMatches, FindAllStringSubmatch.
  pose proof (allMatches_nested outer inner (prog re) text Hn
                (String.length text + 2) 0 None) as Hall.
  destruct (allMatches _ _ _ _ _) as [|m ms]; [discriminate|].
  cbn [fmap option_fmap option_map]. intros [= <-].
  exists m. split; [inversion Hall; assumption | reflexivity].
Qed.

Lemma quotedRE_nested text matches :
  findAllNamedMatches quotedRE text = Some matches ->
  exists w, get (first matches) "filename" = get (first matches) "basefilename" +:+ w.
Proof.
  intros Hm.
  destruct (findAllNamedMatches_first 2 3 quotedRE text matches) as (m & Hc & ->);
    [vm_compute; reflexivity | exact Hm |].
  unfold submatches.
  generalize (Str.take (mEnd m - mBegin m) (Str.drop (mBegin m) text)) as whole.
  intros whole. cbn -[capture]. unfold get. simplify_map_eq. exact Hc.
Qed.

Lemma plainRE_nested text matches :
  findAllNamedMatches plainRE text = Some matches ->
  exists w, get (first matches) "filename" = get (first matches) "basefilename" +:+ w.
Proof.
  intros Hm.
  destruct (findAllNamedMatches_first 1 2 plainRE text matches) as (m & Hc & ->);
    [vm_compute; reflexivity | exact Hm |].
  unfold submatches.
  generalize (Str.take (mEnd m - mBegin m) (Str.drop (mBegin m) text)) as whole.
  intros whole. cbn -[capture]. unfold get. simplify_map_eq. exact Hc.
Qed.

Lemma q_nested text qm :
  FindStringSubmatch q text = Some qm ->
  exists w, get (namedGroups (SubexpNames q) qm) "filename"
            = get (namedGroups (SubexpNames q) qm) "basefilename" +:+ w.
Proof.
  unfold FindStringSubmatch.
  destruct (search (prog q) 0 text) as [m|] eqn:Hs; [|discriminate].
  cbn [fmap option_fmap option_map]. intros [= <-].
  apply (search_nested 1 2) in Hs; [|vm_compute; reflexivity].
  unfold submatches.
  generalize (Str.take (mEnd m - mBegin m) (Str.drop (mBegin m) text)) as whole.
  intros whole. cbn -[capture]. unfold get. simplify_map_eq. exact Hs.
Qed.

(** *** [Trim] gives the empty string for the strings within the cutset *)

Lemma all_rev p s : Str.all p (Str.rev s) = Str.all p s.
Proof.
  induction s as [|a s IH]; [reflexivity|].
  rewrite rev_cons, all_append, IH. cbn [Str.all].
  rewrite andb_true_r. apply andb_comm.
Qed.

Lemma dropCutset_within cutset s :
  Str.all (inCutset cutset) s = true -> dropCutset cutset s = EmptyString.
Proof.
  induction s as [|a s IH]; [reflexivity|]. cbn [Str.all dropCutset].
  intros Ha. apply andb_true_iff in Ha as [Ha Hs].
  unfold inCutset in Ha. rewrite Ha. auto.
Qed.

Lemma dropCutset_empty cutset s :
  dropCutset cutset s = EmptyString -> Str.all (inCutset cutset) s = true.
Proof.
  induction s as [|a s IH]; [reflexivity|]. cbn [Str.all dropCutset].
  unfold inCutset at 1.
  destruct (Str.contains (String a EmptyString) cutset); [auto | discriminate].
Qed.

Lemma rev_empty s : Str.rev s = EmptyString -> s = EmptyString.
Proof.
  intros Hr. rewrite <- (rev_involutive s), Hr. reflexivity.
Qed.

Lemma Trim_empty s cutset :
  Trim s cutset = EmptyString <-> Str.all (inCutset cutset) s = true.
Proof.
  unfold Trim. split.
  - intros Ht. apply dropCutset_empty in Ht. rewrite all_rev in Ht.
    destruct (dropCutset_suffix cutset (Str.rev s)) as [p Hp].
    destruct (dropCutset cutset (Str.rev s)) as [|a rest] eqn:E.
    + rewrite <- (all_rev _ s). apply dropCutset_empty. exact E.
    + pose proof (dropCutset_clean cutset (Str.rev s)) as Hclean.
      rewrite E in Hclean. unfold startsClean in Hclean.
      cbn [Str.all] in Ht. apply andb_true_iff in Ht as [Ha _].
      unfold inCutset in Ha. rewrite Ha in Hclean. discriminate.
  - intros Hs. rewrite (dropCutset_within cutset (Str.rev s))
      by (rewrite all_rev; exact Hs).
    reflexivity.
Qed.

Lemma Trim_prefix_empty b w cutset :
  Trim (b +:+ w) cutset = EmptyString -> Trim b cutset = EmptyString.
Proof.
  rewrite !Trim_empty, all_append. intros Hs.
  apply andb_true_iff in Hs as [Hb _]. exact Hb.
Qed.

Section BaseHasFile.

Context `{Unicode}.

Lemma parseName_base subject remainder :
  baseHasFile subject -> baseHasFile (parseName subject remainder).
Proof.
  intros Hs. unfold parseName.
  destruct (findAllNamedMatches quotedRE remainder) as [matches|] eqn:Eq.
  - destruct (quotedRE_nested _ _ Eq) as [w Hw].
    unfold baseHasFile. cbn [Filename Basefilename setBasefilename setFilename setHeader].
    rewrite Hw. apply Trim_prefix_empty.
  - destruct (findAllNamedMatches plainRE remainder) as [matches|] eqn:Ep.
    + destruct (plainRE_nested _ _ Ep) as [w Hw].
      unfold baseHasFile. cbn [Filename Basefilename setBasefilename setFilename].
      rewrite Hw. apply Trim_prefix_empty.
    + destruct (TotalFiles subject =? 1); [|exact Hs].
      unfold baseHasFile. cbn [Filename Basefilename setBasefilename setFilename].
      auto.
Qed.

Lemma fileWithExtRE_not_empty candidate m :
  FindStringSubmatch fileWithExtRE candidate = Some m -> candidate <> EmptyString.
Proof. intros Hm ->. vm_compute in Hm. discriminate. Qed.

Lemma candidateRE_not_empty cand m :
  FindStringSubmatch candidateRE cand = Some m -> cand <> EmptyString.
Proof. intros Hm ->. vm_compute in Hm. discriminate. Qed.

Lemma preferWithExt_base later : forall subject quoted0,
  baseHasFile subject -> baseHasFile (preferWithExt subject quoted0 later).
Proof.
  induction later as [|qi later IH]; intros subject quoted0 Hs; [exact Hs|].
  cbn [preferWithExt].
  destruct (FindStringSubmatch fileWithExtRE (TrimSpace (item qi 1))) as [m|] eqn:Em;
    [|apply IH; exact Hs].
  apply fileWithExtRE_not_empty in Em.
  unfold baseHasFile. intros Hf. exfalso. apply Em. revert Hf.
  repeat case_match;
    cbn [Filename Header setHeader setBasefilename setFilename]; auto.
Qed.

Lemma dualQuote_base subject remainder :
  baseHasFile subject -> baseHasFile (dualQuote subject remainder).
Proof.
  intros Hs. unfold dualQuote. repeat case_match; auto using preferWithExt_base.
Qed.

Lemma pickCandidate_base later : forall subject quoted0,
  baseHasFile subject -> baseHasFile (pickCandidate subject quoted0 later).
Proof.
  induction later as [|qi later IH]; intros subject quoted0 Hs; [exact Hs|].
  cbn [pickCandidate].
  destruct (FindStringSubmatch candidateRE (TrimSpace (item qi 1))) as [m|] eqn:Em;
    [|apply IH; exact Hs].
  apply candidateRE_not_empty in Em.
  unfold baseHasFile. cbn [Filename setBasefilename setFilename].
  intros Hf. contradiction.
Qed.

Lemma refineExtension_base subject remainder :
  baseHasFile subject -> baseHasFile (refineExtension subject remainder).
Proof.
  intros Hs. unfold refineExtension. repeat case_match; auto using pickCandidate_base.
Qed.

Lemma backfillHeader_base subject :
  baseHasFile subject -> baseHasFile (backfillHeader subject).
Proof.
  intros Hs. unfold backfillHeader. case_match; [|exact Hs]. exact Hs.
Qed.

Lemma leadingFallback_base subject :
  baseHasFile subject -> baseHasFile (leadingFallback subject).
Proof.
  intros Hs. unfold leadingFallback.
  destruct (Str.isEmpty (Filename subject)); [|exact Hs].
  destruct (FindStringSubmatch leadBrackets (Subject subject)) as [m|]; [|exact Hs].
  destruct (indexOf "tail" (SubexpNames leadBrackets)) as [idxTail|]; [|exact Hs].
  destruct (FindStringSubmatch q (TrimSpace (item m idxTail))) as [qm|] eqn:Eq;
    [|exact Hs].
  destruct (q_nested _ _ Eq) as [w Hw].
  assert (Hb : baseHasFile
    (setBasefilename (Trim (get (namedGroups (SubexpNames q) qm) "basefilename") " -")
       (setFilename (Trim (get (namedGroups (SubexpNames q) qm) "filename") " -")
          subject))).
  { unfold baseHasFile. cbn [Filename Basefilename setBasefilename setFilename].
    rewrite Hw. apply Trim_prefix_empty. }
  case_match; exact Hb.
Qed.

(** X18: ParseSubject never returns a base file name without a file name:
    when the Filename of the subject it returns is empty, so is the
    Basefilename. *)
Theorem ParseSubject_base_has_file s :
  Filename (ParseSubject s).1 = EmptyString ->
  Basefilename (ParseSubject s).1 = EmptyString.
Proof.
  rewrite ParseSubject_fst.
  apply leadingFallback_base, backfillHeader_base, refineExtension_base,
    dualQuote_base, parseName_base.
  destruct (numbering_texts s) as (_ & _ & _ & Hb).
  intros _. exact Hb.
Qed.

End BaseHasFile.

Lemma ParseSubject_base_has_file_witness :
  let s := "[PRiVATE] some post [13/21] yEnc" in
  Filename (@ParseSubject noTables s).1 = EmptyString
  /\ Basefilename (@ParseSubject noTables s).1 = EmptyString.
Proof.
  cbv zeta.
  assert (Hf : Filename (@ParseSubject noTables "[PRiVATE] some post [13/21] yEnc").1
               = EmptyString) by (vm_compute; reflexivity).
  split; [exact Hf|].
  exact (@ParseSubject_base_has_file noTables _ Hf).
Defined.


(** ** What [ScanNzbFile] reads *)

Section ScanReads.

Context `{Unicode} `{Html}.

Lemma scanSegment_same acc seg seg' :
  sameSegment seg seg' -> scanSegment acc seg' = scanSegment acc seg.
Proof.
  intros (Hb & Hn & Hid). unfold scanSegment, NzbSegment.setID.
  rewrite Hb, Hn, Hid. reflexivity.
Qed.

Lemma scanSegments_same segs segs' :
  Forall2 sameSegment segs segs' ->
  forall acc, foldl scanSegment acc segs' = foldl scanSegment acc segs.
Proof.
  induction 1 as [|seg seg' segs segs' Hseg _ IH]; intros acc; cbn [foldl];
    [reflexivity|].
  rewrite (scanSegment_same acc seg seg' Hseg). apply IH.
Qed.

Lemma scanFile_same acc file file' :
  sameFile file file' -> scanFile acc file' = scanFile acc file.
Proof.
  intros (Hg & Hp & Hd & Hs & Hh & Hb & Hsegs).
  destruct file, file'. cbn in Hg, Hp, Hd, Hs, Hh, Hb, Hsegs. subst.
  unfold scanFile, nameFile. cbn [NzbFile.Subject NzbFile.Segments].
  rewrite (scanSegments_same _ _ Hsegs), <- (Forall2_length _ _ _ Hsegs).
  rewrite ParseSubject_snd.
  generalize (ParseSubject Subject0).1 as subject. intros subject.
  reflexivity.
Qed.

Lemma scanFiles_same files files' :
  Forall2 sameFile files files' ->
  forall acc, foldl scanFile acc files' = foldl scanFile acc files.
Proof.
  induction 1 as [|file file' files files' Hfile _ IH]; intros acc; cbn [foldl];
    [reflexivity|].
  rewrite (scanFile_same acc file file' Hfile). apply IH.
Qed.

(** X19: ScanNzbFile reads of the Nzb only the comment, the meta data and,
    of each file, the groups, the poster, the date, the subject, the file
    hash, the Basefilename and the Bytes, Number and unescaped ID of its
    segments: two Nzb that agree on these are scanned to the same Nzb,
    whatever Number, Filename, Bytes and totals they held before. *)
Theorem ScanNzbFile_reads nzb nzb' :
  Nzb.Comment nzb' = Nzb.Comment nzb ->
  Nzb.Meta nzb' = Nzb.Meta nzb ->
  Forall2 sameFile (Nzb.Files nzb) (Nzb.Files nzb') ->
  ScanNzbFile nzb' = ScanNzbFile nzb.
Proof.
  intros Hc Hm Hfiles. unfold ScanNzbFile.
  rewrite Hc, Hm, (scanFiles_same _ _ Hfiles), <- (Forall2_length _ _ _ Hfiles).
  reflexivity.
Qed.

Lemma scannedFrom_same file file' :
  Forall (fun seg =>
            UnescapeString (UnescapeString (NzbSegment.ID seg))
            = UnescapeString (NzbSegment.ID seg)) (NzbFile.Segments file) ->
  scannedFrom file file' -> sameFile file file'.
Proof.
  intros Hids (Hg & Hp & Hd & Hs & Hh & Hb & Hsegs & _).
  repeat (split; [assumption|]).
  rewrite Hsegs. apply Forall2_fmap_r, Forall_Forall2_diag.
  eapply Forall_impl; [exact Hids|].
  intros seg Hid. repeat split. exact Hid.
Qed.

(** X20: scanning a second time changes nothing, as long as unescaping the
    IDs a second time does not: no number is counted twice. *)
Theorem ScanNzbFile_twice nzb :
  Forall (fun file =>
            Forall (fun seg =>
                      UnescapeString (UnescapeString (NzbSegment.ID seg))
                      = UnescapeString (NzbSegment.ID seg))
                   (NzbFile.Segments file)) (Nzb.Files nzb) ->
  ScanNzbFile (ScanNzbFile nzb) = ScanNzbFile nzb.
Proof.
  intros Hids.
  assert (Hsame : Forall2 sameFile (Nzb.Files nzb) (Nzb.Files (ScanNzbFile nzb))).
  { destruct (ScanNzbFile_files nzb) as (out & -> & Hall & _).
    revert Hids. induction Hall as [|file file' files out Hfile _ IH];
      intros Hids; [constructor|].
    inversion Hids; subst.
    constructor; [apply scannedFrom_same; assumption | apply IH; assumption]. }
  unfold ScanNzbFile at 1 3.
  rewrite (scanFiles_same _ _ Hsame), <- (Forall2_length _ _ _ Hsame).
  reflexivity.
Qed.

End ScanReads.

Lemma ScanNzbFile_reads_witness :
  let file := fun number name bytes =>
    NzbFile.mk ["alt.binaries.test"] [NzbSegment.mk 1000 1 "id"] "poster" 0
      "name.rar (1/1)" bytes "" number name "" 0 in
  @ScanNzbFile noTables noEntities (Nzb.mk "" ∅ [file 7 "old" 5] 9 9 9 9)
  = @ScanNzbFile noTables noEntities (Nzb.mk "" ∅ [file 0 "" 0] 0 0 0 0).
Proof.
  cbv zeta.
  apply (@ScanNzbFile_reads noTables noEntities).
  - reflexivity.
  - reflexivity.
  - repeat constructor.
Defined.

Lemma ScanNzbFile_twice_witness :
  let nzb :=
    Nzb.mk "" ∅
      [NzbFile.mk [] [NzbSegment.mk 1000 1 "id"] "" 0 "name.rar (1/1)" 0 "" 0 "" "" 0]
      0 0 0 0 in
  @ScanNzbFile noTables noEntities (@ScanNzbFile noTables noEntities nzb)
  = @ScanNzbFile noTables noEntities nzb.
Proof.
  cbv zeta.
  apply (@ScanNzbFile_twice noTables noEntities).
  repeat constructor.
Defined.
